(** * Eterna wallet: the secret-management core, embedded and verified

    The development follows the JavaScript sources:

    - [src/config/security.config.js]  (module [SecurityConfig])
    - [src/core/mnemonic.js]           (module [MnemonicManager])
    - [src/unnamed/part_002]           (module [EncryptionManager])
    - [src/core/storage.js]            (modules [StorageManager], [WalletManager])

    JavaScript values, strings, arrays and exceptions are modelled in module
    [JS]; the parts of the browser the code calls but does not contain
    (WebCrypto, Unicode normalisation, JSON) form the interface [Host]. *)

From Stdlib Require Import ZArith QArith Qround Lqa List String Ascii Lia Bool.
From Stdlib.Strings Require Byte.
From stdpp Require Import base tactics list.
Import ListNotations.
Local Open Scope Z_scope.
Set Warnings "-register-all".


(* ================================================================== *)
(** * JavaScript values and the primitives the sources use            *)
(* ================================================================== *)

Module JS.

(** A string is its sequence of UTF-16 code units. *)
Definition jsstring := list Z.

Definition code_of (a : ascii) : Z := Z.of_N (N_of_ascii a).

(** [str "abc"]: the JavaScript string with those (ASCII) characters. *)
Definition str (s : string) : jsstring := map code_of (list_ascii_of_string s).

Definition string_eqb (a b : jsstring) : bool :=
  bool_decide (a = b).

(** Exceptions: [new Error(message)] and the platform's own errors, which
    carry a message as well. *)
Record exn := Error { message : jsstring }.

(** The outcome of evaluating a call: a value, or a thrown exception. *)
Inductive completion (A : Type) :=
| Return (a : A)
| Throw (e : exn).
Arguments Return {A} a.
Arguments Throw {A} e.

Definition is_return {A} (c : completion A) : bool :=
  match c with Return _ => true | Throw _ => false end.

(** A typed-array view [new Uint8Array(buffer, byteOffset, length)] on the
    ArrayBuffer stored at [view_buffer] in the heap. *)
Record Uint8Array := mkView {
  view_buffer : nat;
  byteOffset : nat;
  view_length : nat
}.

(** Values.  Numbers carried by records are integers here; the arithmetic
    of the mnemonic code, which divides, is done on [Q] below. *)
Inductive jsval :=
| JUndefined
| JNull
| JBool (b : bool)
| JNum (n : Z)
| JStr (s : jsstring)
| JArr (items : list jsval)
| JObj (fields : list (jsstring * jsval))
| JArrayBuffer (id : nat)
| JUint8Array (view : Uint8Array).

(** [typeof v] *)
Definition typeof (v : jsval) : jsstring :=
  match v with
  | JUndefined => str "undefined"
  | JNull => str "object"
  | JBool _ => str "boolean"
  | JNum _ => str "number"
  | JStr _ => str "string"
  | JArr _ | JObj _ | JArrayBuffer _ | JUint8Array _ => str "object"
  end.

(** ToBoolean: [undefined], [null], [false], [0] and [""] are falsy. *)
Definition truthy (v : jsval) : bool :=
  match v with
  | JUndefined | JNull => false
  | JBool b => b
  | JNum n => negb (n =? 0)
  | JStr s => match s with [] => false | _ => true end
  | JArr _ | JObj _ | JArrayBuffer _ | JUint8Array _ => true
  end.

(** [a || b] on values. *)
Definition js_or_else (a b : jsval) : jsval := if truthy a then a else b.

(** Own property [o[k]] of a plain object; [undefined] when absent. *)
Fixpoint assoc (k : jsstring) (fields : list (jsstring * jsval)) : option jsval :=
  match fields with
  | [] => None
  | (k', v) :: rest => if string_eqb k' k then Some v else assoc k rest
  end.

Definition get_prop (o : jsval) (k : jsstring) : jsval :=
  match o with
  | JObj fields => default JUndefined (assoc k fields)
  | _ => JUndefined
  end.

(** [o.k] where [o] may be [null] or [undefined]: those have no properties
    and the access throws. *)
Definition get_member (o : jsval) (k : jsstring) : completion jsval :=
  match o with
  | JUndefined | JNull =>
      Throw (Error (str "TypeError: Cannot read properties of " ++
                    (match o with JNull => str "null" | _ => str "undefined" end)))
  | _ => Return (get_prop o k)
  end.

(** [o.k = v] on a plain object: the property is replaced in place, or added
    last. *)
Fixpoint set_field (k : jsstring) (v : jsval) (fields : list (jsstring * jsval))
  : list (jsstring * jsval) :=
  match fields with
  | [] => [(k, v)]
  | (k', v') :: rest =>
      if string_eqb k' k then (k, v) :: rest else (k', v') :: set_field k v rest
  end.

Definition set_prop (o : jsval) (k : jsstring) (v : jsval) : jsval :=
  match o with
  | JObj fields => JObj (set_field k v fields)
  | _ => o
  end.

(** ** 32-bit integer operators *)

Definition ToInt32 (z : Z) : Z := (z + 2 ^ 31) mod 2 ^ 32 - 2 ^ 31.

(** [a >> n] *)
Definition shr (a n : Z) : Z := Z.shiftr (ToInt32 a) (n mod 32).
(** [a << n] *)
Definition shl (a n : Z) : Z := ToInt32 (Z.shiftl (ToInt32 a) (n mod 32)).
(** [a & b] *)
Definition band (a b : Z) : Z := Z.land (ToInt32 a) (ToInt32 b).
(** [a | b] *)
Definition bor (a b : Z) : Z := Z.lor (ToInt32 a) (ToInt32 b).

(** ** Numbers that come out of a division

    [/] is real division in JavaScript.  The quotients the mnemonic code
    forms have denominators 3, 8, 32 and 33 and small numerators, so they
    are held exactly as rationals; comparison with an integer and
    truncation to an integer agree with the floating-point results. *)

Definition num (z : Z) : Q := inject_Z z.
Definition len_num {A} (l : list A) : Q := num (Z.of_nat (length l)).

(** [a < b] *)
Definition lt_num (a b : Q) : bool := negb (Qle_bool b a).

(** ToIntegerOrInfinity: truncation towards zero. *)
Definition trunc (q : Q) : Z := if Qle_bool 0 q then Qfloor q else Qceiling q.

(** The values [i] of [for (let i = 0; i < bound; i += step)]. *)
Definition for_range (bound : Q) (step : positive) : list Z :=
  map (fun k => Z.pos step * Z.of_nat k)
      (seq 0 (Z.to_nat (Qceiling (bound / num (Z.pos step))%Q))).

(** ** Arrays *)

(** [a[i]], [undefined] out of range. *)
Definition index {A} (l : list A) (i : Z) : option A :=
  if i <? 0 then None else l !! Z.to_nat i.

(** A relative index of [slice], clamped into [0, len]. *)
Definition clamp (len rel : Z) : Z :=
  if rel <? 0 then Z.max (len + rel) 0 else Z.min rel len.

(** [a.slice(start, end)]; [end = None] is an omitted argument. *)
Definition slice {A} (l : list A) (start : Q) (stop : option Q) : list A :=
  let len := Z.of_nat (length l) in
  let k := clamp len (trunc start) in
  let final := match stop with None => len | Some e => clamp len (trunc e) end in
  take (Z.to_nat (final - k)) (drop (Z.to_nat k) l).

(** [a.includes(x)] and [a.indexOf(x)] on arrays of strings. *)
Definition includes (l : list jsstring) (x : jsstring) : bool :=
  existsb (string_eqb x) l.

Fixpoint indexOf_from (i : Z) (l : list jsstring) (x : jsstring) : Z :=
  match l with
  | [] => -1
  | y :: rest => if string_eqb y x then i else indexOf_from (i + 1) rest x
  end.
Definition indexOf (l : list jsstring) (x : jsstring) : Z := indexOf_from 0 l x.

(** [a.includes(n)] on an array of numbers. *)
Definition includes_num (l : list Z) (n : Z) : bool := existsb (Z.eqb n) l.

(** [a.join(sep)]: [undefined] elements contribute the empty string. *)
Fixpoint join (sep : jsstring) (l : list (option jsstring)) : jsstring :=
  match l with
  | [] => []
  | [x] => default [] x
  | x :: rest => default [] x ++ sep ++ join sep rest
  end.

(** ** Strings *)

(** White space and line terminators: what [trim] strips and [\s] matches. *)
Definition is_space (c : Z) : bool :=
  (c =? 9) || (c =? 10) || (c =? 11) || (c =? 12) || (c =? 13) || (c =? 32)
  || (c =? 160) || (c =? 5760) || ((8192 <=? c) && (c <=? 8202))
  || (c =? 8232) || (c =? 8233) || (c =? 8239) || (c =? 8287)
  || (c =? 12288) || (c =? 65279).

Fixpoint trimStart (s : jsstring) : jsstring :=
  match s with
  | c :: rest => if is_space c then trimStart rest else s
  | [] => []
  end.

(** [s.trim()] *)
Definition trim (s : jsstring) : jsstring := rev (trimStart (rev (trimStart s))).

(** [s.split(/\s+/g)]: the fields between maximal runs of white space.
    [field] is the field being read, [in_run] tells that the previous code
    unit was white space. *)
Fixpoint split_spaces_from (field : jsstring) (in_run : bool) (s : jsstring)
  : list jsstring :=
  match s with
  | [] => [field]
  | c :: rest =>
      if is_space c then
        if in_run then split_spaces_from [] true rest
        else field :: split_spaces_from [] true rest
      else split_spaces_from (field ++ [c]) false rest
  end.
Definition split_spaces (s : jsstring) : list jsstring :=
  split_spaces_from [] false s.

(** [s.split(' ')]: the fields between single occurrences of [sep]. *)
Fixpoint split_char_from (sep : Z) (field : jsstring) (s : jsstring)
  : list jsstring :=
  match s with
  | [] => [field]
  | c :: rest =>
      if c =? sep then field :: split_char_from sep [] rest
      else split_char_from sep (field ++ [c]) rest
  end.
Definition split_char (sep : Z) (s : jsstring) : list jsstring :=
  split_char_from sep [] s.

(** Decimal digits of a non-negative integer, as [String(n)] prints them. *)
Fixpoint digits_fuel (fuel : nat) (n : Z) (acc : jsstring) : jsstring :=
  match fuel with
  | O => acc
  | S f =>
      let acc' := (48 + n mod 10) :: acc in
      if n <? 10 then acc' else digits_fuel f (n / 10) acc'
  end.
Definition number_to_string (n : Z) : jsstring :=
  if n <? 0 then 45 :: digits_fuel (Z.to_nat (- n)) (- n) []
  else digits_fuel (S (Z.to_nat n)) n [].

End JS.
Import JS.

(* ================================================================== *)
(** * Bytes                                                           *)
(* ================================================================== *)

Abbreviation byte := Byte.byte.

#[global] Instance byte_eq_decision : EqDecision byte := Byte.byte_eq_dec.

Definition byte_to_Z (b : byte) : Z := Z.of_N (Byte.to_N b).

(** Storing a number in a [Uint8Array] element keeps it modulo 256. *)
Definition byte_of_Z (z : Z) : byte :=
  default Byte.x00 (Byte.of_N (Z.to_N (z mod 256))).


(* ================================================================== *)
(** * Text encoding and base64, as the platform standards define them *)
(* ================================================================== *)

Module Platform.

Definition is_high_surrogate (c : Z) : bool := (55296 <=? c) && (c <=? 56319).
Definition is_low_surrogate (c : Z) : bool := (56320 <=? c) && (c <=? 57343).

(** The scalar values of a string: a surrogate pair is one code point, a
    lone surrogate is read as U+FFFD. *)
Fixpoint code_points (s : jsstring) : list Z :=
  match s with
  | [] => []
  | c :: rest =>
      if is_high_surrogate c then
        match rest with
        | d :: rest' =>
            if is_low_surrogate d
            then (65536 + (c - 55296) * 1024 + (d - 56320)) :: code_points rest'
            else 65533 :: code_points rest
        | [] => [65533]
        end
      else if is_low_surrogate c then 65533 :: code_points rest
      else c :: code_points rest
  end.

Definition utf8_of_code_point (cp : Z) : list byte :=
  if cp <? 128 then [byte_of_Z cp]
  else if cp <? 2048 then
    [byte_of_Z (192 + cp / 64); byte_of_Z (128 + cp mod 64)]
  else if cp <? 65536 then
    [byte_of_Z (224 + cp / 4096); byte_of_Z (128 + (cp / 64) mod 64);
     byte_of_Z (128 + cp mod 64)]
  else
    [byte_of_Z (240 + cp / 262144); byte_of_Z (128 + (cp / 4096) mod 64);
     byte_of_Z (128 + (cp / 64) mod 64); byte_of_Z (128 + cp mod 64)].

(** [new TextEncoder().encode(s)] *)
Definition TextEncoder_encode (s : jsstring) : list byte :=
  flat_map utf8_of_code_point (code_points s).

(** The UTF-8 decoder of the Encoding standard, with replacement. *)
Record utf8_state := mkUtf8 {
  u_code_point : Z;
  u_needed : Z;
  u_seen : Z;
  u_lower : Z;
  u_upper : Z
}.

Definition utf8_start : utf8_state := mkUtf8 0 0 0 128 191.

(** A byte read when no sequence is open. *)
Definition utf8_lead (b : Z) : list Z * utf8_state :=
  if b <=? 127 then ([b], utf8_start)
  else if (194 <=? b) && (b <=? 223) then
    ([], mkUtf8 (b - 192) 1 0 128 191)
  else if (224 <=? b) && (b <=? 239) then
    ([], mkUtf8 (b - 224) 2 0 (if b =? 224 then 160 else 128)
                (if b =? 237 then 159 else 191))
  else if (240 <=? b) && (b <=? 244) then
    ([], mkUtf8 (b - 240) 3 0 (if b =? 240 then 144 else 128)
                (if b =? 244 then 143 else 191))
  else ([65533], utf8_start).

Definition utf8_step (st : utf8_state) (b : Z) : list Z * utf8_state :=
  if u_needed st =? 0 then utf8_lead b
  else if (b <? u_lower st) || (u_upper st <? b) then
    let '(out, st') := utf8_lead b in (65533 :: out, st')
  else
    let cp := u_code_point st * 64 + (b - 128) in
    if u_seen st + 1 =? u_needed st then ([cp], utf8_start)
    else ([], mkUtf8 cp (u_needed st) (u_seen st + 1) 128 191).

Fixpoint utf8_run (st : utf8_state) (bytes : list Z) : list Z :=
  match bytes with
  | [] => if u_needed st =? 0 then [] else [65533]
  | b :: rest => let '(out, st') := utf8_step st b in out ++ utf8_run st' rest
  end.

(** A leading byte order mark is dropped ([ignoreBOM] is false). *)
Definition strip_bom (cps : list Z) : list Z :=
  match cps with
  | 65279 :: rest => rest
  | _ => cps
  end.

Definition utf16_of_code_point (cp : Z) : jsstring :=
  if cp <? 65536 then [cp]
  else [55296 + (cp - 65536) / 1024; 56320 + (cp - 65536) mod 1024].

(** [new TextDecoder().decode(bytes)] *)
Definition TextDecoder_decode (bytes : list byte) : jsstring :=
  flat_map utf16_of_code_point (strip_bom (utf8_run utf8_start (map byte_to_Z bytes))).

(** ** base64 *)

Definition b64_char (n : Z) : Z :=
  if n <? 26 then 65 + n
  else if n <? 52 then 71 + n
  else if n <? 62 then n - 4
  else if n =? 62 then 43
  else 47.

Definition b64_value (c : Z) : option Z :=
  if (65 <=? c) && (c <=? 90) then Some (c - 65)
  else if (97 <=? c) && (c <=? 122) then Some (c - 71)
  else if (48 <=? c) && (c <=? 57) then Some (c + 4)
  else if c =? 43 then Some 62
  else if c =? 47 then Some 63
  else None.

Fixpoint b64_encode (bs : list Z) : jsstring :=
  match bs with
  | a :: b :: c :: rest =>
      b64_char (a / 4) :: b64_char ((a mod 4) * 16 + b / 16)
      :: b64_char ((b mod 16) * 4 + c / 64) :: b64_char (c mod 64)
      :: b64_encode rest
  | [a; b] =>
      [b64_char (a / 4); b64_char ((a mod 4) * 16 + b / 16);
       b64_char ((b mod 16) * 4); 61]
  | [a] => [b64_char (a / 4); b64_char ((a mod 4) * 16); 61; 61]
  | [] => []
  end.

(** [btoa(binary)]: every code unit must be a byte. *)
Definition btoa (binary : jsstring) : completion jsstring :=
  if forallb (fun c => (0 <=? c) && (c <=? 255)) binary
  then Return (b64_encode binary)
  else Throw (Error (str "InvalidCharacterError")).

Definition is_ascii_whitespace (c : Z) : bool :=
  (c =? 9) || (c =? 10) || (c =? 12) || (c =? 13) || (c =? 32).

(** One or two [=] at the very end are dropped. *)
Fixpoint strip_padding (s : jsstring) : jsstring :=
  match s with
  | [] => []
  | c :: rest =>
      if (c =? 61) && match rest with
                      | [] => true
                      | [d] => d =? 61
                      | _ => false
                      end
      then []
      else c :: strip_padding rest
  end.

Fixpoint b64_values (s : jsstring) : option (list Z) :=
  match s with
  | [] => Some []
  | c :: rest =>
      match b64_value c, b64_values rest with
      | Some v, Some vs => Some (v :: vs)
      | _, _ => None
      end
  end.

Fixpoint b64_decode (vs : list Z) : jsstring :=
  match vs with
  | a :: b :: c :: d :: rest =>
      (a * 4 + b / 16) :: ((b mod 16) * 16 + c / 4) :: ((c mod 4) * 64 + d)
      :: b64_decode rest
  | [a; b; c] => [a * 4 + b / 16; (b mod 16) * 16 + c / 4]
  | [a; b] => [a * 4 + b / 16]
  | _ => []
  end.

(** [atob(data)]: forgiving-base64 decode. *)
Definition atob (data : jsstring) : completion jsstring :=
  let d := List.filter (fun c => negb (is_ascii_whitespace c)) data in
  let d := if Z.of_nat (length d) mod 4 =? 0 then strip_padding d else d in
  if Z.of_nat (length d) mod 4 =? 1 then Throw (Error (str "InvalidCharacterError"))
  else match b64_values d with
       | Some vs => Return (b64_decode vs)
       | None => Throw (Error (str "InvalidCharacterError"))
       end.

End Platform.
Import Platform.

(* ================================================================== *)
(** * The host: what the browser supplies                             *)
(* ================================================================== *)

(** WebCrypto's [crypto.subtle], [String.prototype.normalize] and [JSON].
    Algorithm names and parameters are passed on as the sources give them;
    a rejected promise is a [Throw]. *)
Class Host := {
  CryptoKey : Type;
  (** [s.normalize('NFKD')] *)
  normalize_NFKD : jsstring -> jsstring;
  (** what [subtle.digest(algorithm, data)] resolves to *)
  subtle_digest : jsstring -> list byte -> list byte;
  (** [importKey('raw', password, 'PBKDF2', ..)] then
      [deriveBits({PBKDF2, salt, iterations, hash}, key, length)] *)
  subtle_deriveBits :
    forall (hash : jsstring) (iterations : Z) (password salt : list byte)
           (length : Z), list byte;
  (** [importKey('raw', password, 'PBKDF2', ..)] then
      [deriveKey({PBKDF2, salt, iterations, hash}, key, {name, length}, ..)] *)
  subtle_deriveKey :
    forall (hash : jsstring) (iterations : Z) (name : jsstring) (length : Z)
           (password salt : list byte), completion CryptoKey;
  (** [subtle.encrypt({name, iv}, key, data)] *)
  subtle_encrypt :
    forall (name : jsstring) (iv : list byte) (key : CryptoKey)
           (data : list byte), completion (list byte);
  (** [subtle.decrypt({name, iv}, key, data)] *)
  subtle_decrypt :
    forall (name : jsstring) (iv : list byte) (key : CryptoKey)
           (data : list byte), completion (list byte);
  (** [JSON.parse(text)] *)
  JSON_parse : jsstring -> completion jsval;
  (** [s.toLowerCase()] *)
  String_toLowerCase : jsstring -> jsstring
}.

(** What the proofs use of the host: decryption undoes encryption under the
    same key and nonce, and PBKDF2 returns as many bits as were asked. *)
Class HostLaws (H : Host) : Prop := {
  decrypt_encrypt :
    forall name iv key data sealed,
      subtle_encrypt name iv key data = Return sealed ->
      subtle_decrypt name iv key sealed = Return data;
  deriveBits_length :
    forall hash iterations password salt n,
      0 <= n -> n mod 8 = 0 ->
      Z.of_nat (length (subtle_deriveBits hash iterations password salt n)) = n / 8
}.

(* ================================================================== *)
(** * Program state                                                   *)
(* ================================================================== *)

(** The four object stores of [EternaWalletDB], each holding its records in
    key order. *)
Record Database := mkDatabase {
  wallets : list jsval;
  settings : list jsval;
  transactions : list jsval;
  tokens : list jsval
}.

(** A chain module ([Ethereum], [Tron], [Bitcoin]) as [WalletManager] uses
    it; [getPrivateKeyFromMnemonic] is absent from [BitcoinChain]. *)
Record ChainManager := mkChain {
  getProvider : completion jsval;
  getPrivateKeyFromMnemonic : option (jsval -> completion jsval)
}.

(** The fields of a [WalletManager]. *)
Record WalletManager := mkWalletManager {
  wallet : jsval;
  mnemonic : jsval;
  privateKeys : list (jsstring * jsval);
  chains : list (jsstring * ChainManager);
  providers : list (jsstring * jsval);
  isLocked : bool;
  (** the pending auto-lock timeout, with its delay in milliseconds *)
  autoLockTimer : option Z;
  (** chains whose cached key has a pending 30 s eviction timeout *)
  evictions : list jsstring
}.

Record World := mkWorld {
  (** the bytes [crypto.getRandomValues] hands out, and how many are gone *)
  random_bytes : nat -> byte;
  random_used : nat;
  (** what [Math.random().toString(36).substr(2, 9)] yields, call by call *)
  random_suffix : nat -> jsstring;
  suffix_used : nat;
  (** [Date.now()] *)
  now : Z;
  (** ArrayBuffers, by identity *)
  heap : list (list byte);
  (** [Storage.db] *)
  db : Database;
  (** the [Wallet] singleton *)
  session : WalletManager
}.

Definition set_random_used (n : nat) (w : World) : World :=
  mkWorld (random_bytes w) n (random_suffix w) (suffix_used w) (now w)
          (heap w) (db w) (session w).
Definition set_suffix_used (n : nat) (w : World) : World :=
  mkWorld (random_bytes w) (random_used w) (random_suffix w) n (now w)
          (heap w) (db w) (session w).
Definition set_heap (h : list (list byte)) (w : World) : World :=
  mkWorld (random_bytes w) (random_used w) (random_suffix w) (suffix_used w)
          (now w) h (db w) (session w).
Definition set_db (d : Database) (w : World) : World :=
  mkWorld (random_bytes w) (random_used w) (random_suffix w) (suffix_used w)
          (now w) (heap w) d (session w).
Definition set_session (s : WalletManager) (w : World) : World :=
  mkWorld (random_bytes w) (random_used w) (random_suffix w) (suffix_used w)
          (now w) (heap w) (db w) s.

(** A call: it runs in a world and leaves a value or an exception, and the
    world as its effects changed it.  Effects made before a [throw] stay. *)
Definition M (A : Type) : Type := World -> completion A * World.

Definition ret {A} (a : A) : M A := fun w => (Return a, w).
Definition throw {A} (e : exn) : M A := fun w => (Throw e, w).
Definition bind {A B} (m : M A) (k : A -> M B) : M B :=
  fun w => match m w with
           | (Return a, w') => k a w'
           | (Throw e, w') => (Throw e, w')
           end.
(** [try { m } catch (error) { handler }] *)
Definition try_catch {A} (m : M A) (handler : exn -> M A) : M A :=
  fun w => match m w with
           | (Return a, w') => (Return a, w')
           | (Throw e, w') => handler e w'
           end.
Definition lift {A} (c : completion A) : M A := fun w => (c, w).
Definition get_world : M World := fun w => (Return w, w).
Definition modify (f : World -> World) : M unit := fun w => (Return tt, f w).

Notation "'do' x <- m ; k" := (bind m (fun x => k))
  (at level 10, x name, m at level 100, k at level 200,
   format "'[v' 'do'  x  <-  m ; '/' k ']'").
Notation "'run' m ; k" := (bind m (fun _ => k))
  (at level 10, m at level 100, k at level 200,
   format "'[v' 'run'  m ; '/' k ']'").

(** [for (const x of xs) { body(x) }] *)
Fixpoint for_of {A} (xs : list A) (body : A -> M unit) : M unit :=
  match xs with
  | [] => ret tt
  | x :: rest => run body x; for_of rest body
  end.

(** ** Typed arrays on the heap *)

(** [new Uint8Array(bytes)] over a fresh buffer. *)
Definition alloc (bytes : list byte) : M Uint8Array :=
  fun w => (Return (mkView (length (heap w)) 0 (length bytes)),
            set_heap (heap w ++ [bytes]) w).

Definition buffer_bytes (w : World) (id : nat) : list byte :=
  default [] (heap w !! id).

(** The elements [v[0] .. v[v.length - 1]]. *)
Definition view_bytes (w : World) (v : Uint8Array) : list byte :=
  take (view_length v) (drop (byteOffset v) (buffer_bytes w (view_buffer v))).

Definition read_buffer (id : nat) : M (list byte) :=
  fun w => (Return (buffer_bytes w id), w).
Definition read_view (v : Uint8Array) : M (list byte) :=
  fun w => (Return (view_bytes w v), w).

(** A fresh [ArrayBuffer] with these bytes. *)
Definition alloc_buffer (bytes : list byte) : M nat :=
  fun w => (Return (length (heap w)), set_heap (heap w ++ [bytes]) w).

(** The bytes of a [BufferSource] argument; anything else is a
    [TypeError]. *)
Definition bytes_of_source (source : jsval) : M (list byte) :=
  match source with
  | JArrayBuffer id => read_buffer id
  | JUint8Array v => read_view v
  | _ => throw (Error (str "TypeError: not a BufferSource"))
  end.

(** [String(v)], as far as the sources can observe it. *)
Fixpoint ToString (w : World) (v : jsval) : jsstring :=
  match v with
  | JUndefined => str "undefined"
  | JNull => str "null"
  | JBool b => if b then str "true" else str "false"
  | JNum n => number_to_string n
  | JStr s => s
  | JArr items =>
      (fix go (l : list jsval) : jsstring :=
         let text x := match x with JUndefined | JNull => [] | _ => ToString w x end in
         match l with
         | [] => []
         | [x] => text x
         | x :: rest => text x ++ str "," ++ go rest
         end) items
  | JObj _ => str "[object Object]"
  | JArrayBuffer _ => str "[object ArrayBuffer]"
  | JUint8Array view =>
      join (str ",") (map (fun b => Some (number_to_string (byte_to_Z b))) (view_bytes w view))
  end.

(** [dst.set(src, offset)] on the elements of a typed array. *)
Definition typed_set (dst src : list byte) (offset : nat) : completion (list byte) :=
  if bool_decide (offset + length src <= length dst)%nat
  then Return (take offset dst ++ src ++ drop (offset + length src) dst)
  else Throw (Error (str "RangeError: offset is out of bounds")).

(* ================================================================== *)
(** * src/config/security.config.js                                   *)
(* ================================================================== *)

Module SecurityConfig.

(** [SecurityConfig.encryption] *)
Definition algorithm : jsstring := str "AES-GCM".
Definition keySize : Z := 256.
Definition ivSize : Z := 12.
Definition saltSize : Z := 16.
Definition iterations : Z := 100000.
Definition hash : jsstring := str "SHA-256".

(** [SecurityConfig.validation.mnemonic.wordCount] *)
Definition wordCount : list Z := [12; 15; 18; 21; 24].

(** [SecurityConfig.generateSecureRandom(bytes)]: a fresh [Uint8Array] of
    that many elements, filled by [crypto.getRandomValues]. *)
Definition generateSecureRandom (bytes : Q) : M Uint8Array :=
  if trunc bytes <? 0 then throw (Error (str "RangeError: Invalid typed array length"))
  else
    do w <- get_world;
    let n := Z.to_nat (trunc bytes) in
    let array := map (fun i => random_bytes w (random_used w + i)%nat) (seq 0 n) in
    run modify (set_random_used (random_used w + n)%nat);
    alloc array.

(** [SecurityConfig.zeroBuffer(buffer)].  Only an [ArrayBuffer] or a plain
    array passes one of the tests: a [Uint8Array] is neither, and a string
    cannot be overwritten.  The result is the argument as the call leaves
    it (a plain array is a value here, so its new contents are returned). *)
Definition zeroBuffer (buffer : jsval) : M jsval :=
  match buffer with
  | JArrayBuffer id =>
      do w <- get_world;
      run modify (set_heap (<[id := replicate (length (buffer_bytes w id)) Byte.x00]> (heap w)));
      ret buffer
  | JArr items => ret (JArr (map (fun _ => JNum 0) items))
  | _ => ret buffer
  end.

(** [SecurityConfig.keyDerivation] *)
Definition minPasswordLength : Z := 8.
Definition maxPasswordLength : Z := 128.
Definition require_lowercase : bool := true.
Definition require_uppercase : bool := true.
Definition require_numbers : bool := true.
Definition require_symbols : bool := false.

(** The character classes of the patterns: [[0-9]], [[a-z]], [[A-Z]],
    [[0-9a-fA-F]], [[a-zA-HJ-NP-Z0-9]], [[A-Za-z1-9]] and the symbols of
    [validatePassword]. *)
Definition is_digit (c : Z) : bool := (48 <=? c) && (c <=? 57).
Definition is_lower (c : Z) : bool := (97 <=? c) && (c <=? 122).
Definition is_upper (c : Z) : bool := (65 <=? c) && (c <=? 90).
Definition is_hex (c : Z) : bool :=
  is_digit c || ((97 <=? c) && (c <=? 102)) || ((65 <=? c) && (c <=? 70)).
Definition is_bitcoin_char (c : Z) : bool :=
  is_lower c || ((65 <=? c) && (c <=? 72)) || ((74 <=? c) && (c <=? 78))
  || ((80 <=? c) && (c <=? 90)) || is_digit c.
Definition is_tron_char (c : Z) : bool :=
  is_upper c || is_lower c || ((49 <=? c) && (c <=? 57)).
Definition is_symbol (c : Z) : bool :=
  existsb (Z.eqb c)
    [33; 64; 35; 36; 37; 94; 38; 42; 40; 41; 95; 43; 45; 61; 91; 93; 123; 125; 59; 39;
     58; 34; 92; 124; 44; 46; 60; 62; 47; 63].

(** The object [validatePassword] returns: [{ valid, error }]. *)
Record password_validation := mkPasswordValidation {
  password_valid : bool;
  password_error : option jsstring
}.

(** [SecurityConfig.validatePassword(password)] *)
Definition validatePassword (password : jsval) : password_validation :=
  match password with
  | JStr s =>
      let n := Z.of_nat (length s) in
      if n <? minPasswordLength then
        mkPasswordValidation false
          (Some (str "Password must be at least " ++ number_to_string minPasswordLength
                 ++ str " characters"))
      else if maxPasswordLength <? n then
        mkPasswordValidation false
          (Some (str "Password must be less than " ++ number_to_string maxPasswordLength
                 ++ str " characters"))
      else
        let errors :=
          (if require_lowercase && negb (existsb is_lower s)
           then [Some (str "lowercase letter")] else [])
          ++ (if require_uppercase && negb (existsb is_upper s)
              then [Some (str "uppercase letter")] else [])
          ++ (if require_numbers && negb (existsb is_digit s)
              then [Some (str "number")] else [])
          ++ (if require_symbols && negb (existsb is_symbol s)
              then [Some (str "special character")] else []) in
        if (0 <? length errors)%nat then
          mkPasswordValidation false
            (Some (str "Password must contain at least one " ++ join (str ", ") errors))
        else mkPasswordValidation true None
  | _ => mkPasswordValidation false (Some (str "Password must be a string"))
  end.

(** [class{lo,hi}$]: from [lo] to [hi] code units of the class, up to the
    end of the text. *)
Definition run_of (class : Z -> bool) (lo hi : nat) (s : jsstring) : bool :=
  forallb class s && (lo <=? length s)%nat && (length s <=? hi)%nat.

(** [/^(0x)?[0-9a-fA-F]{40}$/] *)
Definition ethereum_pattern (s : jsstring) : bool :=
  run_of is_hex 40 40 s
  || match s with
     | zero :: x :: rest => (zero =? 48) && (x =? 120) && run_of is_hex 40 40 rest
     | _ => false
     end.

(** [/^(bc1|[13])[a-zA-HJ-NP-Z0-9]{25,39}$/] *)
Definition bitcoin_pattern (s : jsstring) : bool :=
  match s with
  | b :: c :: one :: rest =>
      (b =? 98) && (c =? 99) && (one =? 49) && run_of is_bitcoin_char 25 39 rest
  | _ => false
  end
  || match s with
     | c :: rest => ((c =? 49) || (c =? 51)) && run_of is_bitcoin_char 25 39 rest
     | [] => false
     end.

(** [/^T[A-Za-z1-9]{33}$/] *)
Definition tron_pattern (s : jsstring) : bool :=
  match s with
  | t :: rest => (t =? 84) && run_of is_tron_char 33 33 rest
  | [] => false
  end.

(** [SecurityConfig.validateAddress(address, chain)] *)
Definition validateAddress (address chain : jsval) : bool :=
  if negb (truthy address) || negb (string_eqb (typeof address) (str "string")) then false
  else
    let address := trim (match address with JStr s => s | _ => [] end) in
    let basic := (26 <=? length address)%nat && (length address <=? 64)%nat in
    match chain with
    | JStr name =>
        if string_eqb name (str "ethereum") || string_eqb name (str "bsc")
           || string_eqb name (str "polygon")
        then ethereum_pattern address
        else if string_eqb name (str "bitcoin") then bitcoin_pattern address
        else if string_eqb name (str "tron") then tron_pattern address
        else basic
    | _ => basic
    end.

End SecurityConfig.

(* ================================================================== *)
(** * src/core/mnemonic.js                                            *)
(* ================================================================== *)

Module MnemonicManager.

(** A promise nobody awaits: what it settles to is out of reach of the
    synchronous code that holds it. *)
Inductive Promise (A : Type) := Pending (settles_to : A).
Arguments Pending {A} settles_to.

(** [p.length] and [p[i]] on a promise: both [undefined]. *)
Definition promise_length {A} (p : Promise A) : option Z := None.
Definition promise_index {A} (p : Promise A) (i : Z) : option Z := None.

(** The fields the constructor sets. *)
Record t := mk {
  wordCount : list Z;
  wordList : list jsstring
}.

(** [getEnglishWordList()], as the source file has it. *)
Definition getEnglishWordList : list jsstring :=
  map str
    ["abandon"; "ability"; "able"; "about"; "above"; "absent"; "absorb"; "abstract"; "absurd"; "abuse";
     "access"; "accident"; "account"; "accuse"; "achieve"; "acid"; "acoustic"; "acquire"; "across"; "act";
     "action"; "actor"; "actress"; "actual"; "adapt"; "add"; "addict"; "address"; "adjust"; "admit";
     "adult"; "advance"; "advice"; "aerobic"; "affair"; "afford"; "afraid"; "again"; "age"; "agent";
     "agree"; "ahead"; "aim"; "air"; "airport"; "aisle"; "alarm"; "album"; "alcohol"; "alert";
     "zone"]%string.

(** [new MnemonicManager()] *)
Definition new : t := mk SecurityConfig.wordCount getEnglishWordList.

(** The manager over another word list (the production list has 2048
    entries). *)
Definition with_wordList (words : list jsstring) : t :=
  mk SecurityConfig.wordCount words.

Section Methods.
Context {H : Host}.
Variable this : t.

(** [sha256(data)]: the promise [subtle.digest] returns. *)
Definition sha256 (data : list byte) : Promise (list byte) :=
  Pending (subtle_digest (str "SHA-256") data).

(** [byteToBits(byte)] *)
Definition byteToBits (b : Z) : list Z :=
  map (fun i => band (shr b i) 1) [7; 6; 5; 4; 3; 2; 1; 0].

(** [numberToBits(number, length)] *)
Definition numberToBits (number : Z) (length : nat) : list Z :=
  map (fun i => band (shr number (Z.of_nat i)) 1) (rev (seq 0 length)).

(** [bitsToNumber(bits)] *)
Definition bitsToNumber (bits : list Z) : Z :=
  fold_left (fun number bit => bor (shl number 1) bit) bits 0.

(** The loop [for (let i = 0; i < hash.length; i++)
    hashBits.push(...byteToBits(hash[i]))] over the promise [hash]:
    [i < undefined] is false, so the body never runs. *)
Definition hashBits_of (hash : Promise (list byte)) : list Z :=
  match promise_length hash with
  | None => []
  | Some n =>
      flat_map (fun i => byteToBits (default 0 (promise_index hash i)))
               (for_range (num n) 1)
  end.

(** [entropyToMnemonic(entropy)] *)
Definition entropyToMnemonic (entropy : list byte) : jsstring :=
  let hash := sha256 entropy in
  let checksumBits := (len_num entropy * num 8 / num 32)%Q in
  let bits := flat_map (fun b => byteToBits (byte_to_Z b)) entropy in
  let hashBits := hashBits_of hash in
  let bits := bits ++ slice hashBits (num 0) (Some checksumBits) in
  let words :=
    map (fun i =>
           let wordBits := slice bits (num i) (Some (num (i + 11))) in
           index (wordList this) (bitsToNumber wordBits))
        (for_range (len_num bits) 11) in
  join (str " ") words.

(** [generateMnemonic(wordCount)] *)
Definition generateMnemonic (wordCount_arg : Z) : M jsstring :=
  if negb (includes_num (wordCount this) wordCount_arg) then
    throw (Error (str "Invalid word count. Must be one of: "
                  ++ join (str ", ") (map (fun n => Some (number_to_string n)) (wordCount this))))
  else
    let entropyBits := (num wordCount_arg * num 11 - num wordCount_arg / num 3)%Q in
    let entropyBytes := (entropyBits / num 8)%Q in
    do entropy <- SecurityConfig.generateSecureRandom entropyBytes;
    do bytes <- read_view entropy;
    let mnemonic := entropyToMnemonic bytes in
    run SecurityConfig.zeroBuffer (JUint8Array entropy);
    ret mnemonic.

(** [mnemonicToEntropy(mnemonic)]; the result is the content of the
    [Uint8Array] returned. *)
Fixpoint words_to_bits (words : list jsstring) : completion (list Z) :=
  match words with
  | [] => Return []
  | word :: rest =>
      let index := indexOf (wordList this) word in
      if index =? -1 then Throw (Error (str "Invalid word: " ++ word))
      else match words_to_bits rest with
           | Return bits => Return (numberToBits index 11 ++ bits)
           | Throw e => Throw e
           end
  end.

Definition mnemonicToEntropy (mnemonic : jsstring) : completion (list byte) :=
  let words := split_spaces (trim mnemonic) in
  match words_to_bits words with
  | Throw e => Throw e
  | Return bits =>
      let checksumBits := (len_num bits / num 33)%Q in
      let entropyBits := (len_num bits - checksumBits)%Q in
      let entropy :=
        map (fun i => bitsToNumber (slice bits (num i) (Some (num (i + 8)))))
            (for_range entropyBits 8) in
      Return (map byte_of_Z entropy)
  end.

(** [verifyChecksum(entropy)] *)
Definition verifyChecksum (entropy : list byte) : bool :=
  let hash := sha256 entropy in
  let checksumBits := (len_num entropy * num 8 / num 32)%Q in
  let hashBits := hashBits_of hash in
  let mnemonic := entropyToMnemonic entropy in
  let words := split_char 32 mnemonic in
  let bits := flat_map (fun word => numberToBits (indexOf (wordList this) word) 11) words in
  let extractedChecksum := slice bits (- checksumBits)%Q None in
  let expectedChecksum := slice hashBits (num 0) (Some checksumBits) in
  forallb (fun i => bool_decide (index extractedChecksum i = index expectedChecksum i))
          (for_range checksumBits 1).

(** The object [validateMnemonic] returns: [{ valid, error }]. *)
Record validation := mkValidation {
  valid : bool;
  error : option jsstring
}.

(** [validateMnemonic(mnemonic)] *)
Definition validateMnemonic (mnemonic : jsval) : completion validation :=
  if negb (truthy mnemonic) || negb (string_eqb (typeof mnemonic) (str "string")) then
    Return (mkValidation false (Some (str "Invalid mnemonic format")))
  else
    let text := match mnemonic with JStr s => s | _ => [] end in
    let words := split_spaces (trim text) in
    if negb (includes_num (wordCount this) (Z.of_nat (length words))) then
      Return (mkValidation false
                (Some (str "Invalid word count. Must be "
                       ++ join (str ", ") (map (fun n => Some (number_to_string n)) (wordCount this))
                       ++ str " words")))
    else
      match find (fun word => negb (includes (wordList this) word)) words with
      | Some word =>
          Return (mkValidation false (Some (str "Invalid word: " ++ [34] ++ word ++ [34])))
      | None =>
          match mnemonicToEntropy text with
          | Return entropy =>
              if negb (verifyChecksum entropy)
              then Return (mkValidation false (Some (str "Invalid checksum")))
              else Return (mkValidation true None)
          | Throw e => Return (mkValidation false (Some (message e)))
          end
      end.

(** [normalizeString(str)] *)
Definition normalizeString (s : jsstring) : jsstring := normalize_NFKD s.

(** [mnemonicToSeed(mnemonic, passphrase = '')]; the result is the content
    of the [Uint8Array] returned. *)
Definition mnemonicToSeed (mnemonic : jsstring) (passphrase : jsstring) : list byte :=
  let mnemonicBuffer := TextEncoder_encode (normalizeString mnemonic) in
  let saltBuffer := TextEncoder_encode (str "mnemonic" ++ normalizeString passphrase) in
  let seed := subtle_deriveBits (str "SHA-512") 2048 mnemonicBuffer saltBuffer 512 in
  seed.

(** [formatMnemonic(mnemonic)]: the words with their positions, from 1. *)
Definition formatMnemonic (mnemonic : jsstring) : list (Z * jsstring) :=
  imap (fun index word => (Z.of_nat index + 1, word)) (split_char 32 mnemonic).

End Methods.

End MnemonicManager.

(* ================================================================== *)
(** * src/unnamed/part_002: the AES-256 encryption module             *)
(* ================================================================== *)

Module EncryptionManager.

Section Methods.
Context {H : Host}.

(** The constructor copies [SecurityConfig.encryption]. *)
Definition algorithm : jsstring := SecurityConfig.algorithm.
Definition keySize : Z := SecurityConfig.keySize.
Definition ivSize : Z := SecurityConfig.ivSize.
Definition saltSize : Z := SecurityConfig.saltSize.
Definition iterations : Z := SecurityConfig.iterations.
Definition hash : jsstring := SecurityConfig.hash.

(** [zeroBuffer(buffer)] *)
Definition zeroBuffer (buffer : jsval) : M jsval := SecurityConfig.zeroBuffer buffer.

(** [deriveKey(password, salt)] *)
Definition deriveKey (password : jsstring) (salt : jsval) : M CryptoKey :=
  if negb (truthy (JStr password)) || negb (truthy salt) then
    throw (Error (str "Password and salt required"))
  else
    do passwordBuffer <- alloc (TextEncoder_encode password);
    do passwordBytes <- read_view passwordBuffer;
    do saltBytes <- bytes_of_source salt;
    do key <- lift (subtle_deriveKey hash iterations
                      (default [] (head (split_char 45 algorithm))) keySize
                      passwordBytes saltBytes);
    run zeroBuffer (JUint8Array passwordBuffer);
    ret key.

(** [arrayBufferToBase64(buffer)] *)
Definition arrayBufferToBase64 (buffer : jsval) : M jsstring :=
  do bytes <- bytes_of_source buffer;
  lift (btoa (map byte_to_Z bytes)).

(** [base64ToArrayBuffer(base64)]: the identity of the buffer returned. *)
Definition base64ToArrayBuffer (base64 : jsval) : M nat :=
  do w <- get_world;
  do binary <- lift (atob (ToString w base64));
  alloc_buffer (map byte_of_Z binary).

Definition encryption_failed : exn := Error (str "Failed to encrypt data").
Definition decryption_failed : exn :=
  Error (str "Failed to decrypt data - wrong password?").

(** [encrypt(data, password)] *)
Definition encrypt (data : jsval) (password : jsstring) : M jsstring :=
  try_catch
    (do salt <- SecurityConfig.generateSecureRandom (num saltSize);
     do iv <- SecurityConfig.generateSecureRandom (num ivSize);
     do key <- deriveKey password (JUint8Array salt);
     do dataBuffer <-
       match data with
       | JStr s => do encoded <- alloc (TextEncoder_encode s); ret (JUint8Array encoded)
       | JUint8Array view => ret (JArrayBuffer (view_buffer view))
       | _ => ret data
       end;
     do ivBytes <- read_view iv;
     do plain <- bytes_of_source dataBuffer;
     do sealed <- lift (subtle_encrypt algorithm ivBytes key plain);
     do encrypted <- alloc_buffer sealed;
     let size := (view_length salt + view_length iv + length sealed)%nat in
     do saltBytes <- read_view salt;
     do part1 <- lift (typed_set (replicate size Byte.x00) saltBytes 0);
     do ivBytes' <- read_view iv;
     do part2 <- lift (typed_set part1 ivBytes' (view_length salt));
     do encryptedBytes <- read_buffer encrypted;
     do part3 <- lift (typed_set part2 encryptedBytes (view_length salt + view_length iv));
     do result <- alloc part3;
     do base64 <- arrayBufferToBase64 (JUint8Array result);
     run zeroBuffer (JUint8Array salt);
     run zeroBuffer (JUint8Array iv);
     run zeroBuffer dataBuffer;
     ret base64)
    (fun error => throw encryption_failed).

(** [buffer.slice(begin, end)] on an [ArrayBuffer]: a new buffer. *)
Definition buffer_slice (id : nat) (start : Z) (stop : option Z) : M nat :=
  do bytes <- read_buffer id;
  alloc_buffer (slice bytes (num start) (option_map num stop)).

(** [decrypt(encryptedData, password)] *)
Definition decrypt (encryptedData : jsval) (password : jsstring) : M jsstring :=
  try_catch
    (do encryptedBuffer <- base64ToArrayBuffer encryptedData;
     do salt <- buffer_slice encryptedBuffer 0 (Some saltSize);
     do iv <- buffer_slice encryptedBuffer saltSize (Some (saltSize + ivSize));
     do ciphertext <- buffer_slice encryptedBuffer (saltSize + ivSize) None;
     do key <- deriveKey password (JArrayBuffer salt);
     do ivBytes <- read_buffer iv;
     do sealed <- read_buffer ciphertext;
     do opened <- lift (subtle_decrypt algorithm ivBytes key sealed);
     do decrypted <- alloc_buffer opened;
     do decryptedBytes <- read_buffer decrypted;
     let result := TextDecoder_decode decryptedBytes in
     run zeroBuffer (JArrayBuffer salt);
     run zeroBuffer (JArrayBuffer iv);
     run zeroBuffer (JArrayBuffer decrypted);
     ret result)
    (fun error => throw decryption_failed).

(** [generateRandomBytes(length)] *)
Definition generateRandomBytes (length : Q) : M Uint8Array :=
  SecurityConfig.generateSecureRandom length.



End Methods.

(** ** The envelope, in the words of the specification

    [base64( salt(16B) ‖ iv(12B) ‖ ciphertext‖tag )], and its reading at
    the fixed offsets 0, 16 and 28. *)

Definition envelope_of (salt iv sealed : list byte) : jsstring :=
  b64_encode (map byte_to_Z (salt ++ iv ++ sealed)).

Definition envelope_fields (bytes : list byte) : list byte * list byte * list byte :=
  (take 16 bytes, take 12 (drop 16 bytes), drop 28 bytes).

(** Decryption as a function of the envelope's text and the password
    alone: every failure is the one [decryption_failed]. *)
Definition open_envelope {H : Host} (envelope : jsstring) (password : jsstring)
  : completion jsstring :=
  match atob envelope with
  | Throw _ => Throw decryption_failed
  | Return binary =>
      let '(salt, iv, sealed) := envelope_fields (map byte_of_Z binary) in
      match password with
      | [] => Throw decryption_failed
      | _ =>
          match subtle_deriveKey hash iterations (str "AES") keySize
                  (TextEncoder_encode password) salt with
          | Throw _ => Throw decryption_failed
          | Return key =>
              match subtle_decrypt algorithm iv key sealed with
              | Throw _ => Throw decryption_failed
              | Return opened => Return (TextDecoder_decode opened)
              end
          end
      end
  end.

(** The bytes [encrypt] hands to the cipher: the UTF-8 text of a string,
    the whole buffer under a [Uint8Array], an [ArrayBuffer] as it is. *)
Definition payload_of (w : World) (data : jsval) : option (list byte) :=
  match data with
  | JStr s => Some (TextEncoder_encode s)
  | JUint8Array view => Some (buffer_bytes w (view_buffer view))
  | JArrayBuffer id => Some (buffer_bytes w id)
  | _ => None
  end.

(** The [n] random bytes from position [from] on. *)
Definition random_run (w : World) (from n : nat) : list byte :=
  map (fun i => random_bytes w (from + i)%nat) (seq 0 n).

(** Encryption as a function of the random bytes drawn, the payload and the
    password. *)
Definition seal_envelope {H : Host} (salt iv : list byte) (payload : option (list byte))
    (password : jsstring) : completion jsstring :=
  match password with
  | [] => Throw encryption_failed
  | _ =>
      match subtle_deriveKey hash iterations (str "AES") keySize
              (TextEncoder_encode password) salt with
      | Throw _ => Throw encryption_failed
      | Return key =>
          match payload with
          | None => Throw encryption_failed
          | Some plain =>
              match subtle_encrypt algorithm iv key plain with
              | Throw _ => Throw encryption_failed
              | Return sealed => Return (envelope_of salt iv sealed)
              end
          end
      end
  end.

End EncryptionManager.

(* ================================================================== *)
(** * src/core/storage.js: the storage manager                        *)
(* ================================================================== *)

Module StorageManager.

(** The object stores [init] creates, with their key paths. *)
Inductive StoreName := Wallets | Settings | Transactions | Tokens.

Definition keyPath (store : StoreName) : jsstring :=
  match store with
  | Wallets => str "id"
  | Settings => str "key"
  | Transactions => str "id"
  | Tokens => str "address"
  end.

Definition records (d : Database) (store : StoreName) : list jsval :=
  match store with
  | Wallets => wallets d
  | Settings => settings d
  | Transactions => transactions d
  | Tokens => tokens d
  end.

Definition set_records (store : StoreName) (rs : list jsval) (d : Database) : Database :=
  match store with
  | Wallets => mkDatabase rs (settings d) (transactions d) (tokens d)
  | Settings => mkDatabase (wallets d) rs (transactions d) (tokens d)
  | Transactions => mkDatabase (wallets d) (settings d) rs (tokens d)
  | Tokens => mkDatabase (wallets d) (settings d) (transactions d) rs
  end.

(** Keys.  The sources use strings and numbers as keys; a value of another
    type is refused as a key here (IndexedDB also admits dates, binary keys
    and arrays of keys). *)
Definition valid_key (v : jsval) : bool :=
  match v with
  | JNum _ | JStr _ => true
  | _ => false
  end.

Fixpoint string_compare (a b : jsstring) : comparison :=
  match a, b with
  | [], [] => Eq
  | [], _ :: _ => Lt
  | _ :: _, [] => Gt
  | x :: a', y :: b' =>
      match x ?= y with
      | Eq => string_compare a' b'
      | c => c
      end
  end.

(** Key order: numbers before strings, strings by code units. *)
Definition key_compare (a b : jsval) : comparison :=
  match a, b with
  | JNum x, JNum y => x ?= y
  | JNum _, _ => Lt
  | JStr _, JNum _ => Gt
  | JStr x, JStr y => string_compare x y
  | _, _ => Eq
  end.

Definition key_eqb (a b : jsval) : bool :=
  match key_compare a b with Eq => true | _ => false end.

Definition data_error : exn := Error (str "DataError").

(** The records of a store after [store.put(record)] under [key]: the
    record takes the place of one with the same key, or its place in key
    order. *)
Fixpoint put_record (path : jsstring) (key record : jsval) (rs : list jsval)
  : list jsval :=
  match rs with
  | [] => [record]
  | r :: rest =>
      match key_compare key (get_prop r path) with
      | Lt => record :: r :: rest
      | Eq => record :: rest
      | Gt => r :: put_record path key record rest
      end
  end.

(** [put(storeName, data)]: resolves to the key. *)
Definition put (store : StoreName) (data : jsval) : M jsval :=
  let key := get_prop data (keyPath store) in
  if negb (valid_key key) then throw data_error
  else
    run modify (fun w =>
          set_db (set_records store
                    (put_record (keyPath store) key data (records (db w) store))
                    (db w)) w);
    ret key.

(** [get(storeName, key)]: the record, or [undefined]. *)
Definition get (store : StoreName) (key : jsval) : M jsval :=
  if negb (valid_key key) then throw data_error
  else
    do w <- get_world;
    ret (default JUndefined
           (find (fun r => key_eqb (get_prop r (keyPath store)) key)
                 (records (db w) store))).

(** [getAll(storeName)] *)
Definition getAll (store : StoreName) : M (list jsval) :=
  do w <- get_world;
  ret (records (db w) store).

(** [delete(storeName, key)] *)
Definition delete (store : StoreName) (key : jsval) : M unit :=
  if negb (valid_key key) then throw data_error
  else
    modify (fun w =>
      set_db (set_records store
                (List.filter (fun r => negb (key_eqb (get_prop r (keyPath store)) key))
                             (records (db w) store))
                (db w)) w).

(** [clear(storeName)] *)
Definition clear (store : StoreName) : M unit :=
  modify (fun w => set_db (set_records store [] (db w)) w).

(** [count(storeName)] *)
Definition count (store : StoreName) : M Z :=
  do w <- get_world;
  ret (Z.of_nat (length (records (db w) store))).

(** [Date.now()] *)
Definition Date_now : M jsval :=
  do w <- get_world;
  ret (JNum (now w)).

(** [generateId()]: ['id_' + Date.now() + '_' +
    Math.random().toString(36).substr(2, 9)] *)
Definition generateId : M jsval :=
  do w <- get_world;
  run modify (set_suffix_used (S (suffix_used w)));
  ret (JStr (str "id_" ++ number_to_string (now w) ++ str "_"
             ++ random_suffix w (suffix_used w))).

(** [a || b], where [b] is evaluated only if [a] is falsy. *)
Definition or_else (a : jsval) (b : M jsval) : M jsval :=
  if truthy a then ret a else b.

(** [AppConfig.version] *)
Definition AppConfig_version : jsval := JStr (str "1.0.0").

Section Methods.
Context {H : Host}.

(** [saveWallet(walletData, password)].  The call assigns to a property of
    the caller's object: the result is the id together with that object as
    the call leaves it.  When the call throws, the object is as it was. *)
Definition saveWallet (walletData : jsval) (password : jsstring) : M (jsval * jsval) :=
  try_catch
    (do id0 <- lift (get_member walletData (str "id"));
     do id <- or_else id0 generateId;
     do name0 <- lift (get_member walletData (str "name"));
     do name <- or_else name0 (ret (JStr (str "Eterna Wallet")));
     do phrase <- lift (get_member walletData (str "mnemonic"));
     do encryptedMnemonic <- EncryptionManager.encrypt phrase password;
     do addresses <- lift (get_member walletData (str "addresses"));
     do createdAt <- Date_now;
     do updatedAt <- Date_now;
     let encryptedData :=
       JObj [(str "id", id);
             (str "name", name);
             (str "encryptedMnemonic", JStr encryptedMnemonic);
             (str "addresses", addresses);
             (str "createdAt", createdAt);
             (str "updatedAt", updatedAt);
             (str "version", AppConfig_version)] in
     run put Wallets encryptedData;
     let walletData' := set_prop walletData (str "mnemonic") JNull in
     ret (get_prop encryptedData (str "id"), walletData'))
    (fun error => throw error).

(** [loadWallet(walletId, password)] *)
Definition loadWallet (walletId : jsval) (password : jsstring) : M jsval :=
  try_catch
    (do encryptedData <- get Wallets walletId;
     if negb (truthy encryptedData) then throw (Error (str "Wallet not found"))
     else
       do phrase <- EncryptionManager.decrypt
                      (get_prop encryptedData (str "encryptedMnemonic")) password;
       ret (JObj [(str "id", get_prop encryptedData (str "id"));
                  (str "name", get_prop encryptedData (str "name"));
                  (str "mnemonic", JStr phrase);
                  (str "addresses",
                   js_or_else (get_prop encryptedData (str "addresses")) (JObj []));
                  (str "createdAt", get_prop encryptedData (str "createdAt"));
                  (str "version", get_prop encryptedData (str "version"))]))
    (fun error => throw error).

(** [walletExists()] *)
Definition walletExists : M bool :=
  try_catch
    (do n <- count Wallets; ret (0 <? n))
    (fun error => ret false).

(** [getWalletInfo()] *)
Definition getWalletInfo : M jsval :=
  try_catch
    (do all <- getAll Wallets;
     match all with
     | [] => ret JNull
     | wallet :: _ =>
         do id <- lift (get_member wallet (str "id"));
         ret (JObj [(str "id", id);
                    (str "name", get_prop wallet (str "name"));
                    (str "createdAt", get_prop wallet (str "createdAt"));
                    (str "updatedAt", get_prop wallet (str "updatedAt"));
                    (str "version", get_prop wallet (str "version"))])
     end)
    (fun error => ret JNull).

(** [saveSetting(key, value)] *)
Definition saveSetting (key value : jsval) : M unit :=
  try_catch
    (run put Settings (JObj [(str "key", key); (str "value", value)]); ret tt)
    (fun error => throw error).

(** [loadSetting(key, defaultValue = null)] *)
Definition loadSetting (key : jsval) (defaultValue : jsval) : M jsval :=
  try_catch
    (do setting <- get Settings key;
     if truthy setting then lift (get_member setting (str "value")) else ret defaultValue)
    (fun error => ret defaultValue).

(** [saveTransaction(txData)] *)
Definition saveTransaction (txData : jsval) : M jsval :=
  try_catch
    (do hash <- lift (get_member txData (str "hash"));
     do id <- or_else hash generateId;
     do timestamp <- or_else (get_prop txData (str "timestamp")) Date_now;
     let tx :=
       JObj [(str "id", id);
             (str "chain", get_prop txData (str "chain"));
             (str "type", get_prop txData (str "type"));
             (str "from", get_prop txData (str "from"));
             (str "to", get_prop txData (str "to"));
             (str "amount", get_prop txData (str "amount"));
             (str "token", get_prop txData (str "token"));
             (str "fee", get_prop txData (str "fee"));
             (str "timestamp", timestamp);
             (str "status", js_or_else (get_prop txData (str "status")) (JStr (str "pending")));
             (str "hash", get_prop txData (str "hash"));
             (str "blockNumber", get_prop txData (str "blockNumber"));
             (str "confirmed", js_or_else (get_prop txData (str "confirmed")) (JBool false))] in
     run put Transactions tx;
     ret (get_prop tx (str "id")))
    (fun error => throw error).

(** [v.toLowerCase()]: a method of strings only. *)
Definition toLowerCase (v : jsval) : completion jsval :=
  match v with
  | JStr s => Return (JStr (String_toLowerCase s))
  | _ => Throw (Error (str "TypeError: toLowerCase is not a function"))
  end.

(** [saveToken(tokenData)] *)
Definition saveToken (tokenData : jsval) : M jsval :=
  try_catch
    (do address0 <- lift (get_member tokenData (str "address"));
     do address <- lift (toLowerCase address0);
     do addedAt <- Date_now;
     let token :=
       JObj [(str "address", address);
             (str "chain", get_prop tokenData (str "chain"));
             (str "symbol", get_prop tokenData (str "symbol"));
             (str "name", get_prop tokenData (str "name"));
             (str "decimals", get_prop tokenData (str "decimals"));
             (str "logoURI", get_prop tokenData (str "logoURI"));
             (str "addedAt", addedAt)] in
     run put Tokens token;
     ret (get_prop token (str "address")))
    (fun error => throw error).

(** [removeToken(address)] *)
Definition removeToken (address : jsval) : M unit :=
  try_catch
    (do key <- lift (toLowerCase address);
     delete Tokens key)
    (fun error => throw error).

(** [clearAll()] *)
Definition clearAll : M bool :=
  try_catch
    (run clear Wallets;
     run clear Transactions;
     run clear Tokens;
     ret true)
    (fun error => throw error).

(** The values [for (const x of v)] goes through. *)
Definition iterate (v : jsval) : M (list jsval) :=
  match v with
  | JArr items => ret items
  | JStr s => ret (map (fun cp => JStr (utf16_of_code_point cp)) (code_points s))
  | JUint8Array view =>
      do bytes <- read_view view;
      ret (map (fun b => JNum (byte_to_Z b)) bytes)
  | _ => throw (Error (str "TypeError: object is not iterable"))
  end.

(** [for (const x of v) await this.put(store, x)] *)
Definition put_all (store : StoreName) (v : jsval) : M unit :=
  do items <- iterate v;
  for_of items (fun item => run put store item; ret tt).

(** [importWallet(backupData, password)] *)
Definition importWallet (backupData : jsval) (password : jsstring) : M bool :=
  try_catch
    (do data <- lift (get_member backupData (str "data"));
     do decrypted <- EncryptionManager.decrypt data password;
     do backup <- lift (JSON_parse decrypted);
     do version <- lift (get_member backup (str "version"));
     if negb (truthy version) || negb (truthy (get_prop backup (str "wallets"))) then
       throw (Error (str "Invalid backup format"))
     else
       run clearAll;
       run put_all Wallets (get_prop backup (str "wallets"));
       run (if truthy (get_prop backup (str "settings"))
            then put_all Settings (get_prop backup (str "settings")) else ret tt);
       run (if truthy (get_prop backup (str "transactions"))
            then put_all Transactions (get_prop backup (str "transactions")) else ret tt);
       run (if truthy (get_prop backup (str "tokens"))
            then put_all Tokens (get_prop backup (str "tokens")) else ret tt);
       ret true)
    (fun error => throw error).

End Methods.

End StorageManager.

(* ================================================================== *)
(** * src/core/storage.js: the wallet manager                         *)
(* ================================================================== *)

(** The methods of the [Wallet] singleton; its fields are [session w]. *)
Module Wallet.

Definition set_wallet (v : jsval) (this : WalletManager) : WalletManager :=
  mkWalletManager v (mnemonic this) (privateKeys this) (chains this) (providers this)
    (isLocked this) (autoLockTimer this) (evictions this).
Definition set_mnemonic (v : jsval) (this : WalletManager) : WalletManager :=
  mkWalletManager (wallet this) v (privateKeys this) (chains this) (providers this)
    (isLocked this) (autoLockTimer this) (evictions this).
Definition set_privateKeys (m : list (jsstring * jsval)) (this : WalletManager)
  : WalletManager :=
  mkWalletManager (wallet this) (mnemonic this) m (chains this) (providers this)
    (isLocked this) (autoLockTimer this) (evictions this).
Definition set_providers (m : list (jsstring * jsval)) (this : WalletManager)
  : WalletManager :=
  mkWalletManager (wallet this) (mnemonic this) (privateKeys this) (chains this) m
    (isLocked this) (autoLockTimer this) (evictions this).
Definition set_isLocked (b : bool) (this : WalletManager) : WalletManager :=
  mkWalletManager (wallet this) (mnemonic this) (privateKeys this) (chains this)
    (providers this) b (autoLockTimer this) (evictions this).
Definition set_autoLockTimer (t : option Z) (this : WalletManager) : WalletManager :=
  mkWalletManager (wallet this) (mnemonic this) (privateKeys this) (chains this)
    (providers this) (isLocked this) t (evictions this).
Definition set_evictions (l : list jsstring) (this : WalletManager) : WalletManager :=
  mkWalletManager (wallet this) (mnemonic this) (privateKeys this) (chains this)
    (providers this) (isLocked this) (autoLockTimer this) l.

(** [this.field = value] *)
Definition update (f : WalletManager -> WalletManager) : M unit :=
  modify (fun w => set_session (f (session w)) w).

(** [new Map()] with string keys: [get], [set], [delete]. *)
Fixpoint map_get {A} (k : jsstring) (m : list (jsstring * A)) : option A :=
  match m with
  | [] => None
  | (k', v) :: rest => if string_eqb k' k then Some v else map_get k rest
  end.

Fixpoint map_set {A} (k : jsstring) (v : A) (m : list (jsstring * A))
  : list (jsstring * A) :=
  match m with
  | [] => [(k, v)]
  | (k', v') :: rest =>
      if string_eqb k' k then (k, v) :: rest else (k', v') :: map_set k v rest
  end.

Definition map_delete {A} (k : jsstring) (m : list (jsstring * A))
  : list (jsstring * A) :=
  List.filter (fun entry => negb (string_eqb (fst entry) k)) m.

Definition locked_error : exn := Error (str "Wallet is locked").

Section Methods.
Context {H : Host}.

(** [clearSensitiveData()] *)
Definition clearSensitiveData : M unit :=
  do w <- get_world;
  run (if truthy (mnemonic (session w)) then update (set_mnemonic JNull) else ret tt);
  run update (set_privateKeys []);
  do w <- get_world;
  if truthy (wallet (session w)) && truthy (get_prop (wallet (session w)) (str "mnemonic"))
  then update (set_wallet (set_prop (wallet (session w)) (str "mnemonic") JNull))
  else ret tt.

(** [lock()] *)
Definition lock : M unit :=
  run clearSensitiveData;
  run update (set_providers []);
  run update (set_isLocked true);
  do w <- get_world;
  match autoLockTimer (session w) with
  | Some _ => update (set_autoLockTimer None)
  | None => ret tt
  end.

(** [initProviders()]: a chain whose provider cannot be had is skipped. *)
Definition initProviders : M unit :=
  do w <- get_world;
  for_of (chains (session w))
    (fun entry =>
       match getProvider (snd entry) with
       | Return provider =>
           do w <- get_world;
           update (set_providers (map_set (fst entry) provider (providers (session w))))
       | Throw _ => ret tt
       end).

(** ToNumber, for the number a setting holds; [None] is [NaN]. *)
Definition to_number (v : jsval) : option Z :=
  match v with
  | JNum n => Some n
  | JBool b => Some (if b then 1 else 0)
  | JNull => Some 0
  | JStr [] => Some 0
  | _ => None
  end.

(** [startAutoLock()].  The source writes [await] in this method without
    declaring it [async]; it is read as the asynchronous method it describes,
    run to its end. *)
Definition startAutoLock : M unit :=
  run update (set_autoLockTimer None);
  do setting <- StorageManager.loadSetting (JStr (str "autoLockDelay")) (JNum 300);
  match to_number setting with
  | Some seconds =>
      if 0 <? seconds * 1000
      then update (set_autoLockTimer (Some (seconds * 1000)))
      else ret tt
  | None => ret tt
  end.

(** The callback of the auto-lock timeout. *)
Definition onAutoLockTimeout : M unit :=
  do w <- get_world;
  if negb (isLocked (session w)) then lock else ret tt.

(** [unlock(password)] *)
Definition unlock (password : jsstring) : M bool :=
  try_catch
    (do walletInfo <- StorageManager.getWalletInfo;
     if negb (truthy walletInfo) then throw (Error (str "No wallet found"))
     else
       do loaded <- StorageManager.loadWallet (get_prop walletInfo (str "id")) password;
       run update (set_wallet loaded);
       do phrase <- lift (get_member loaded (str "mnemonic"));
       run update (set_mnemonic phrase);
       run initProviders;
       run update (set_isLocked false);
       run startAutoLock;
       ret true)
    (fun error => run lock; throw error).


(** [getPrivateKey(chain)] *)
Definition getPrivateKey (chain : jsstring) : M jsval :=
  do w <- get_world;
  let this := session w in
  if isLocked this || negb (truthy (mnemonic this)) then throw locked_error
  else
    match map_get chain (privateKeys this) with
    | Some key => ret key
    | None =>
        let unsupported :=
          Error (str "Private key derivation not supported for chain: " ++ chain) in
        match map_get chain (chains this) with
        | None => throw unsupported
        | Some chainManager =>
            match getPrivateKeyFromMnemonic chainManager with
            | None => throw unsupported
            | Some derive =>
                do privateKey <- lift (derive (mnemonic this));
                do w <- get_world;
                run update (set_privateKeys
                              (map_set chain privateKey (privateKeys (session w))));
                do w <- get_world;
                run update (set_evictions (evictions (session w) ++ [chain]));
                ret privateKey
            end
        end
    end.

(** The callback of a key's 30 s timeout. *)
Definition onEvictionTimeout (chain : jsstring) : M unit :=
  do w <- get_world;
  update (set_privateKeys (map_delete chain (privateKeys (session w)))).

(** [importBackup(backupData, password)] *)
Definition importBackup (backupData : jsval) (password : jsstring) : M unit :=
  run StorageManager.importWallet backupData password;
  run unlock password;
  ret tt.


(** [resetAutoLock()] *)
Definition resetAutoLock : M unit :=
  do w <- get_world;
  if negb (isLocked (session w)) then startAutoLock else ret tt.

(** [isInitialized()] *)
Definition isInitialized : M bool := StorageManager.walletExists.

End Methods.

End Wallet.

(** [WalletManager.importWallet], the import of a wallet from its phrase. *)
Module WalletSetup.

Section Methods.
Context {H : Host}.

(** The loop over the chains in [createWallet] and [importWallet]: the
    address of each chain goes into [addresses]; a chain whose
    [getAddressFromSeed] throws is left out.  [getAddressFromSeed] stands
    for the methods of the chain modules, by chain name. *)
Fixpoint generateAddresses (getAddressFromSeed : jsstring -> list byte -> M jsval)
    (seed : list byte) (entries : list (jsstring * ChainManager)) (addresses : jsval)
  : M jsval :=
  match entries with
  | [] => ret addresses
  | (chainName, _) :: rest =>
      do addresses' <-
        try_catch
          (do address <- getAddressFromSeed chainName seed;
           ret (set_prop addresses chainName address))
          (fun error => ret addresses);
      generateAddresses getAddressFromSeed seed rest addresses'
  end.

(** [importWallet(mnemonic, password)], with the [MnemonicManager] the
    global [Mnemonic] is.  [Storage.saveWallet] is handed [this.wallet]
    itself, so the [null] it writes into [mnemonic] shows in the
    session. *)
Definition importWallet (Mnemonic : MnemonicManager.t)
    (getAddressFromSeed : jsstring -> list byte -> M jsval)
    (mnemonic_arg : jsval) (password : jsstring) : M jsval :=
  try_catch
    (do validation <- lift (MnemonicManager.validateMnemonic Mnemonic mnemonic_arg);
     if negb (MnemonicManager.valid validation) then
       throw (Error (default [] (MnemonicManager.error validation)))
     else
       run Wallet.update (Wallet.set_mnemonic mnemonic_arg);
       match mnemonic_arg with
       | JStr phrase =>
           let seed := MnemonicManager.mnemonicToSeed phrase [] in
           do w <- get_world;
           do addresses <- generateAddresses getAddressFromSeed seed
                             (chains (session w)) (JObj []);
           do id <- StorageManager.generateId;
           do createdAt <- StorageManager.Date_now;
           run Wallet.update (Wallet.set_wallet
                         (JObj [(str "id", id);
                                (str "name", JStr (str "Eterna Wallet"));
                                (str "mnemonic", mnemonic_arg);
                                (str "addresses", addresses);
                                (str "createdAt", createdAt)]));
           do w <- get_world;
           do saved <- StorageManager.saveWallet (wallet (session w)) password;
           run Wallet.update (Wallet.set_wallet (snd saved));
           run Wallet.clearSensitiveData;
           run Wallet.unlock password;
           do w <- get_world;
           ret (wallet (session w))
       | _ => throw (Error (str "TypeError: str.normalize is not a function"))
       end)
    (fun error => run Wallet.clearSensitiveData; throw error).

End Methods.

End WalletSetup.

(* ================================================================== *)
(** * A small host and inputs, to run the model                       *)
(* ================================================================== *)

(** [Demo.host] stands in for the browser where an example needs one: it
    has the shape of the interface and obeys [HostLaws], and nothing else is
    meant by it.  Its cipher appends a 16-byte tag made from key and nonce
    and hides nothing; its key derivation accepts every algorithm name. *)
Module Demo.

(** [n] bytes, cycling through [material]. *)
Definition stretch (material : list byte) (n : nat) : list byte :=
  map (fun i => default Byte.x00 (material !! (i mod length material)%nat)) (seq 0 n).

Definition tag (key iv : list byte) : list byte := stretch (key ++ iv) 16.

Definition seal (iv key data : list byte) : completion (list byte) :=
  Return (data ++ tag key iv).

Definition open (iv key sealed : list byte) : completion (list byte) :=
  let n := (length sealed - 16)%nat in
  if bool_decide (16 <= length sealed)%nat && bool_decide (drop n sealed = tag key iv)
  then Return (take n sealed)
  else Throw (Error (str "OperationError")).

(** The text of a value, without escapes: enough for the documents below. *)
Fixpoint JSON_text (v : jsval) : jsstring :=
  match v with
  | JUndefined | JNull => str "null"
  | JBool b => if b then str "true" else str "false"
  | JNum n => number_to_string n
  | JStr s => [34] ++ s ++ [34]
  | JArr items =>
      str "["
      ++ (fix go (l : list jsval) : jsstring :=
            match l with
            | [] => []
            | [x] => JSON_text x
            | x :: rest => JSON_text x ++ str "," ++ go rest
            end) items
      ++ str "]"
  | JObj fields =>
      str "{"
      ++ (fix go (l : list (jsstring * jsval)) : jsstring :=
            match l with
            | [] => []
            | [(k, x)] => [34] ++ k ++ [34] ++ str ":" ++ JSON_text x
            | (k, x) :: rest => [34] ++ k ++ [34] ++ str ":" ++ JSON_text x ++ str "," ++ go rest
            end) fields
      ++ str "}"
  | JArrayBuffer _ | JUint8Array _ => str "{}"
  end.

(** A wallet record as [saveWallet] writes it, and one that carries its
    phrase in the clear. *)
Definition stored_wallet (id : string) (address : string) : jsval :=
  JObj [(str "id", JStr (str id));
        (str "name", JStr (str "Eterna Wallet"));
        (str "encryptedMnemonic", JStr (str "AAAA"));
        (str "addresses", JObj [(str "bitcoin", JStr (str address))]);
        (str "createdAt", JNum 1);
        (str "updatedAt", JNum 1);
        (str "version", JStr (str "1.0.0"))].

Definition phrase : jsstring :=
  str "abandon abandon abandon abandon abandon abandon abandon abandon abandon abandon abandon abandon".

Definition plain_wallet : jsval :=
  JObj [(str "id", JStr (str "w2")); (str "mnemonic", JStr phrase)].

(** Backup documents: one whose wallet record holds a plaintext phrase, one
    whose second wallet record has no [id], and one that is well formed. *)
Definition backup_with_plaintext : jsval :=
  JObj [(str "version", JStr (str "1.0.0")); (str "wallets", JArr [plain_wallet])].

Definition backup_with_keyless_record : jsval :=
  JObj [(str "version", JStr (str "1.0.0"));
        (str "wallets", JArr [stored_wallet "w3" "bc1qnew";
                              JObj [(str "name", JStr (str "no key"))]])].

Definition backup_well_formed : jsval :=
  JObj [(str "version", JStr (str "1.0.0"));
        (str "wallets", JArr [stored_wallet "w3" "bc1qnew"]);
        (str "transactions", JArr []);
        (str "tokens", JArr [])].

Definition documents : list jsval :=
  [backup_with_plaintext; backup_with_keyless_record; backup_well_formed].

(** [JSON.parse] on the texts of [documents]; any other text is refused. *)
Definition parse (text : jsstring) : completion jsval :=
  match find (fun d => string_eqb (JSON_text d) text) documents with
  | Some d => Return d
  | None => Throw (Error (str "SyntaxError"))
  end.

#[export] Instance host : Host := {|
  CryptoKey := list byte;
  normalize_NFKD := fun s => s;
  subtle_digest := fun _ data => stretch data 32;
  subtle_deriveBits := fun _ _ password salt n => stretch (password ++ salt) (Z.to_nat (n / 8));
  subtle_deriveKey := fun _ _ _ n password salt =>
    Return (stretch (password ++ salt) (Z.to_nat (n / 8)));
  subtle_encrypt := fun _ iv key data => seal iv key data;
  subtle_decrypt := fun _ iv key sealed => open iv key sealed;
  JSON_parse := parse;
  String_toLowerCase := map (fun c => if (65 <=? c) && (c <=? 90) then c + 32 else c)
|}.

(** Two chain modules: one without key derivation, as [BitcoinChain], and
    one with. *)
Definition demo_chains : list (jsstring * ChainManager) :=
  [(str "bitcoin", mkChain (Return (JObj [])) None);
   (str "ethereum",
    mkChain (Return (JObj [])) (Some (fun _ => Return (JStr (str "0xkey")))))].

Definition locked_session : WalletManager :=
  mkWalletManager JNull JNull [] demo_chains [] true None [].

(** A world whose random bytes are 0, 1, 2, ... and whose store holds one
    wallet. *)
Definition world : World :=
  mkWorld (fun i => byte_of_Z (Z.of_nat i)) 0
          (fun i => number_to_string (Z.of_nat i)) 0
          1700000000000
          []
          (mkDatabase [stored_wallet "w1" "bc1qold"] [] [] [])
          locked_session.

(** The same with one [ArrayBuffer] of three bytes, the first of which no
    UTF-8 text contains, and a [Uint8Array] over all of it. *)
Definition buffer_world : World :=
  mkWorld (random_bytes world) 0 (random_suffix world) 0 (now world)
          [[Byte.xff; Byte.x68; Byte.x69]]
          (db world) locked_session.

Definition payload_view : Uint8Array := mkView 0 0 3.

(** A wallet as [createWallet] hands it to [saveWallet], and the world
    after [saveWallet] stored it under the password "pw" in an empty
    store. *)
Definition new_wallet : jsval :=
  JObj [(str "id", JStr (str "w1"));
        (str "name", JStr (str "Eterna Wallet"));
        (str "mnemonic", JStr phrase);
        (str "addresses", JObj [(str "bitcoin", JStr (str "bc1qold"))]);
        (str "createdAt", JNum 1)].

Definition empty_world : World :=
  mkWorld (random_bytes world) 0 (random_suffix world) 0 (now world) []
          (mkDatabase [] [] [] []) locked_session.

Definition saved_world : World :=
  snd (StorageManager.saveWallet new_wallet (str "pw") empty_world).


(** The same with random bytes all zero. *)
Definition zero_world : World :=
  mkWorld (fun _ => Byte.x00) 0 (random_suffix world) 0 (now world) []
          (db world) locked_session.

(** A session over [saved_world]: unlocked with "pw", locked, and unlocked
    again. *)
Definition unlocked_world : World := snd (Wallet.unlock (str "pw") saved_world).
Definition relocked_world : World := snd (Wallet.lock unlocked_world).

End Demo.

(* ================================================================== *)
(** * Notions the statements use                                      *)
(* ================================================================== *)

(** The text [validateMnemonic] puts into a wrong-word-count reason. *)
Definition word_count_reason (this : MnemonicManager.t) : jsstring :=
  str "Invalid word count. Must be "
  ++ join (str ", ") (map (fun n => Some (number_to_string n)) (MnemonicManager.wordCount this))
  ++ str " words".

(** The four sextets of three bytes, and those of a last group of two or
    one. *)
Definition sextets3 (a b c : Z) : list Z :=
  [a / 4; (a mod 4) * 16 + b / 16; (b mod 16) * 4 + c / 64; c mod 64].

(** The encoding without its padding, as a list of sextets. *)
Fixpoint b64_sextets (bs : list Z) : list Z :=
  match bs with
  | a :: b :: c :: rest => sextets3 a b c ++ b64_sextets rest
  | [a; b] => [a / 4; (a mod 4) * 16 + b / 16; (b mod 16) * 4]
  | [a] => [a / 4; (a mod 4) * 16]
  | [] => []
  end.

(** Numbers that are bytes, and code units that are ASCII. *)
Definition is_bytes (bs : list Z) : Prop := Forall (fun b => 0 <= b < 256) bs.

(** What a call leaves alone: everything but the heap and the count of
    random bytes drawn. *)
Record frame (w w1 : World) : Prop := mkFrame {
  frame_db : db w1 = db w;
  frame_session : session w1 = session w;
  frame_now : now w1 = now w;
  frame_random : random_bytes w1 = random_bytes w;
  frame_suffix : random_suffix w1 = random_suffix w;
  frame_suffix_used : suffix_used w1 = suffix_used w
}.

(** Buffers that exist stay as they are. *)
Definition keeps_buffers (w w1 : World) : Prop :=
  forall id bytes, heap w !! id = Some bytes -> heap w1 !! id = Some bytes.

(** A call that only allocates. *)
Record grows (w w1 : World) : Prop := mkGrows {
  grows_buffers : keeps_buffers w w1;
  grows_frame : frame w w1;
  grows_random : random_used w1 = random_used w
}.

(** A buffer source whose bytes are known. *)
Definition holds (w : World) (source : jsval) (bytes : list byte) : Prop :=
  match source with
  | JArrayBuffer id => heap w !! id = Some bytes
  | JUint8Array view =>
      exists whole,
        heap w !! view_buffer view = Some whole
        /\ bytes = take (view_length view) (drop (byteOffset view) whole)
  | _ => False
  end.

(** The buffer a call to [encrypt] is given, if it is given one. *)
Definition data_buffer (data : jsval) : option nat :=
  match data with
  | JUint8Array view => Some (view_buffer view)
  | JArrayBuffer id => Some id
  | _ => None
  end.

(** References in the arguments point into the heap. *)
Definition data_exists (w : World) (data : jsval) : Prop :=
  match data_buffer data with
  | Some id => is_Some (heap w !! id)
  | None => True
  end.


(** The salt and the nonce a call to [encrypt] in world [w] draws. *)
Definition salt_drawn (w : World) : list byte := EncryptionManager.random_run w (random_used w) 16.

Definition iv_drawn (w : World) : list byte := EncryptionManager.random_run w (random_used w + 16) 12.

(** [m] takes every world to one related to it by [R]. *)
Definition preserves {A} (R : World -> World -> Prop) (m : M A) : Prop :=
  forall w, R w (snd (m w)).









(** The heap has only grown. *)
Definition appends (w w1 : World) : Prop := exists added, heap w1 = heap w ++ added.

(* ================================================================== *)
(** * Theorems                                                        *)
(* ================================================================== *)
(** ** Loops and slices *)

Lemma for_range_head (bound : Q) (step : positive) :
  (0 < bound)%Q -> exists rest, for_range bound step = 0 :: rest.
Proof.
  intros Hpos. unfold for_range.
  assert (Hq : (0 < bound / num (Z.pos step))%Q).
  { apply Qlt_shift_div_l; [reflexivity | lra]. }
  pose proof (Qle_ceiling (bound / num (Z.pos step))) as Hc.
  assert (Hz : 0 < Qceiling (bound / num (Z.pos step))).
  { rewrite Zlt_Qlt. eapply Qlt_le_trans; [exact Hq | exact Hc]. }
  destruct (Z.to_nat (Qceiling (bound / num (Z.pos step)))) as [|n] eqn:E; [lia|].
  simpl. rewrite Z.mul_0_r. eauto.
Qed.

Lemma for_range_empty (bound : Q) (step : positive) :
  (bound <= 0)%Q -> for_range bound step = [].
Proof.
  intros Hle. unfold for_range.
  assert (Hq : (bound / num (Z.pos step) <= 0)%Q).
  { apply Qle_shift_div_r; [reflexivity | lra]. }
  apply Qceiling_resp_le in Hq. change (Qceiling 0) with 0 in Hq.
  replace (Z.to_nat _) with 0%nat by lia. reflexivity.
Qed.

Lemma trunc_neg (q : Q) : (0 <= q)%Q -> trunc (- q) <= 0.
Proof.
  intros Hq. unfold trunc.
  destruct (Qle_bool 0 (- q)) eqn:E.
  - apply Qle_bool_iff in E.
    assert (Hz : (- q == 0)%Q) by lra.
    rewrite (Qfloor_comp _ _ Hz). reflexivity.
  - assert (Hle : (- q <= 0)%Q) by lra.
    apply Qceiling_resp_le in Hle. change (Qceiling 0) with 0 in Hle. exact Hle.
Qed.

Lemma slice_nil {A} (a : Q) (b : option Q) : slice (@nil A) a b = [].
Proof. unfold slice. rewrite drop_nil, take_nil. reflexivity. Qed.

Lemma slice_tail_nonempty {A} (l : list A) (q : Q) :
  l <> [] -> (0 <= q)%Q -> slice l (- q) None <> [].
Proof.
  intros Hl Hq. unfold slice.
  pose proof (trunc_neg q Hq) as Ht.
  assert (Hlen : (0 < length l)%nat) by (destruct l; [done | simpl; lia]).
  set (len := Z.of_nat (length l)).
  assert (Hk : 0 <= clamp len (trunc (- q)) < len).
  { unfold clamp. destruct (trunc (- q) <? 0) eqn:E; lia. }
  intros Hnil. apply (f_equal length) in Hnil.
  rewrite length_take, length_drop in Hnil. simpl in Hnil. lia.
Qed.

(** ** The mnemonic code *)

Section MnemonicFacts.
Context {H : Host}.
Import MnemonicManager.

Lemma split_char_from_nonempty sep field s : split_char_from sep field s <> [].
Proof.
  revert field. induction s as [|c s IH]; intros field; simpl; [done|].
  destruct (c =? sep); [done | apply IH].
Qed.

Lemma split_spaces_from_nonempty field in_run s :
  split_spaces_from field in_run s <> [].
Proof.
  revert field in_run. induction s as [|c s IH]; intros field in_run; simpl; [done|].
  destruct (is_space c); [destruct in_run|]; first [done | apply IH].
Qed.

Lemma numberToBits_length number n : length (numberToBits number n) = n.
Proof. unfold numberToBits. rewrite length_map, length_rev, length_seq. done. Qed.

Lemma len_num_pos {A} (l : list A) : l <> [] -> (0 < len_num l)%Q.
Proof.
  intros Hl. unfold len_num, num. rewrite <- (Zlt_Qlt 0).
  destruct l; [done | simpl; lia].
Qed.

Lemma len_num_nonneg {A} (l : list A) : (0 <= len_num l)%Q.
Proof. unfold len_num, num. rewrite <- (Zle_Qle 0). lia. Qed.

(** The hash is a pending promise where its bits are read: none are. *)
Lemma hashBits_of_promise hash : hashBits_of hash = [].
Proof. reflexivity. Qed.

(** [verifyChecksum] compares the last bits of the words with an empty
    array: on any entropy that is not empty it answers [false]. *)
Lemma verifyChecksum_false (this : t) (entropy : list byte) :
  entropy <> [] -> verifyChecksum this entropy = false.
Proof.
  intros Hne. unfold verifyChecksum.
  rewrite hashBits_of_promise, slice_nil.
  set (checksumBits := (len_num entropy * num 8 / num 32)%Q).
  assert (Hpos : (0 < checksumBits)%Q).
  { pose proof (len_num_pos entropy Hne). unfold checksumBits.
    apply Qlt_shift_div_l; [reflexivity | unfold num, inject_Z; lra]. }
  destruct (for_range_head checksumBits 1 Hpos) as [rest ->].
  set (bits := flat_map _ _).
  assert (Hbits : bits <> []).
  { unfold bits.
    destruct (split_char 32 (entropyToMnemonic this entropy)) as [|word words] eqn:E.
    - exfalso. exact (split_char_from_nonempty _ _ _ E).
    - cbn [flat_map]. intros Hnil. apply (f_equal length) in Hnil.
      rewrite length_app, numberToBits_length in Hnil. cbn [length] in Hnil. lia. }
  pose proof (slice_tail_nonempty bits checksumBits Hbits (Qlt_le_weak _ _ Hpos)) as Hx.
  destruct (slice bits (- checksumBits) None) as [|bit extracted]; [done|].
  reflexivity.
Qed.

Lemma words_to_bits_length (this : t) words bits :
  words_to_bits this words = Return bits ->
  length bits = (11 * length words)%nat.
Proof.
  revert bits. induction words as [|word words IH]; intros bits; cbn [words_to_bits length].
  - intros [= <-]. done.
  - destruct (_ =? -1); [done|].
    destruct (words_to_bits this words) as [bits'|]; [|done].
    intros [= <-]. cbn [length]. rewrite (IH bits' eq_refl). lia.
Qed.

Lemma words_to_bits_message (this : t) words e :
  words_to_bits this words = Throw e ->
  exists word, message e = str "Invalid word: " ++ word.
Proof.
  induction words as [|word words IH]; cbn [words_to_bits]; [done|].
  destruct (_ =? -1).
  - intros [= <-]. eauto.
  - destruct (words_to_bits this words); [done|]. intros [= <-]. auto.
Qed.

Lemma mnemonicToEntropy_nonempty (this : t) text entropy :
  mnemonicToEntropy this text = Return entropy -> entropy <> [].
Proof.
  unfold mnemonicToEntropy.
  destruct (words_to_bits this (split_spaces (trim text))) as [bits|] eqn:E; [|done].
  intros [= <-].
  assert (Hbits : bits <> []).
  { apply words_to_bits_length in E.
    destruct (split_spaces (trim text)) eqn:E'.
    - exfalso. exact (split_spaces_from_nonempty _ _ _ E').
    - destruct bits; [simpl in E; lia | done]. }
  pose proof (len_num_pos bits Hbits) as Hpos.
  assert (Hrange : (0 < len_num bits - len_num bits / num 33)%Q).
  { assert (len_num bits / num 33 < len_num bits)%Q; [|lra].
    apply Qlt_shift_div_r; [reflexivity | unfold num, inject_Z; lra]. }
  destruct (for_range_head _ 8 Hrange) as [rest ->]. done.
Qed.

(** No input is ever found valid: the checksum comparison cannot succeed. *)
Lemma validateMnemonic_rejects (this : t) (input : jsval) :
  exists reason,
    validateMnemonic this input = Return (mkValidation false (Some reason))
    /\ reason <> [].
Proof.
  unfold validateMnemonic.
  destruct (negb (truthy input) || _); [eexists; split; [reflexivity | done]|].
  destruct (negb (includes_num _ _)); [eexists; split; [reflexivity | done]|].
  destruct (find _ _); [eexists; split; [reflexivity | done]|].
  destruct (mnemonicToEntropy this _) as [entropy|e] eqn:E.
  - rewrite (verifyChecksum_false this entropy (mnemonicToEntropy_nonempty _ _ _ E)).
    eexists; split; [reflexivity | done].
  - unfold mnemonicToEntropy in E.
    destruct (words_to_bits this _) as [|e'] eqn:E'; [done|]. injection E as <-.
    destruct (words_to_bits_message _ _ _ E') as [word ->].
    eexists; split; [reflexivity | done].
Qed.

End MnemonicFacts.

(** ** The demo host obeys the laws *)

Lemma stretch_length material n : length (Demo.stretch material n) = n.
Proof. unfold Demo.stretch. rewrite length_map, length_seq. done. Qed.

Lemma open_seal iv key data sealed :
  Demo.seal iv key data = Return sealed -> Demo.open iv key sealed = Return data.
Proof.
  unfold Demo.seal, Demo.open. intros [= <-].
  assert (Htag : length (Demo.tag key iv) = 16%nat) by apply stretch_length.
  rewrite length_app, Htag.
  replace (length data + 16 - 16)%nat with (length data) by lia.
  rewrite drop_app_length, take_app_length.
  rewrite !bool_decide_eq_true_2; [done | done | lia].
Qed.

#[export] Instance demo_host_laws : HostLaws Demo.host.
Proof.
  split.
  - intros name iv key data sealed. apply open_seal.
  - intros hash iterations password salt n Hn _. simpl.
    rewrite stretch_length. apply Z2Nat.id. apply Z.div_pos; lia.
Qed.

Section MnemonicClaims.
Context {H : Host}.
Import MnemonicManager.

Lemma includes_In (l : list jsstring) (x : jsstring) :
  includes l x = true <-> In x l.
Proof.
  unfold includes. rewrite existsb_exists. split.
  - intros (y & Hy & Heq). unfold string_eqb in Heq.
    apply bool_decide_eq_true_1 in Heq. by subst.
  - intros Hin. exists x. split; [done|]. unfold string_eqb. by apply bool_decide_eq_true_2.
Qed.

Lemma indexOf_from_found (l : list jsstring) (x : jsstring) (i : Z) :
  0 <= i -> In x l -> 0 <= indexOf_from i l x.
Proof.
  revert i. induction l as [|y l IH]; intros i Hi; simpl; [done|].
  intros [-> | Hin].
  - unfold string_eqb. rewrite bool_decide_eq_true_2; done.
  - destruct (string_eqb y x); [done|]. apply IH; [lia | done].
Qed.

Lemma words_to_bits_returns (this : t) (words : list jsstring) :
  (forall word, In word words -> In word (wordList this)) ->
  exists bits, words_to_bits this words = Return bits.
Proof.
  induction words as [|word words IH]; intros Hall; cbn [words_to_bits]; [eauto|].
  pose proof (indexOf_from_found (wordList this) word 0 (Z.le_refl 0)
                (Hall word (or_introl eq_refl))) as Hidx.
  fold (indexOf (wordList this) word) in Hidx.
  destruct (indexOf (wordList this) word =? -1) eqn:E; [lia|].
  destruct IH as [bits ->]; [intros; apply Hall; by right | eauto].
Qed.

Lemma find_unknown_None (this : t) (words : list jsstring) :
  (forall word, In word words -> In word (wordList this)) ->
  find (fun word => negb (includes (wordList this) word)) words = None.
Proof.
  intros Hall. destruct (find _ words) as [word|] eqn:E; [|done].
  apply find_some in E as [Hin Hneg].
  apply Hall, includes_In in Hin. rewrite Hin in Hneg. done.
Qed.

Lemma find_unknown_Some (this : t) (words : list jsstring) (word : jsstring) :
  In word words -> ~ In word (wordList this) ->
  exists first,
    find (fun word => negb (includes (wordList this) word)) words = Some first
    /\ In first words /\ ~ In first (wordList this).
Proof.
  intros Hin Hnot.
  destruct (find _ words) as [first|] eqn:E.
  - apply find_some in E as [Hf Hneg]. exists first. split; [done|]. split; [done|].
    intros Hk. apply includes_In in Hk. rewrite Hk in Hneg. done.
  - exfalso. apply (find_none _ _ E) in Hin.
    apply negb_false_iff, includes_In in Hin. done.
Qed.

Lemma guard_not_a_phrase (input : jsval) :
  (forall text, input = JStr text -> text = []) ->
  negb (truthy input) || negb (string_eqb (typeof input) (str "string")) = true.
Proof.
  intros Hinput.
  destruct input as [| |b|n|text|items|fields|id|view];
    try (apply orb_true_iff; right; reflexivity).
  rewrite (Hinput text eq_refl). reflexivity.
Qed.

(** C9.  [validateMnemonic] never throws: on every input, of any type, it
    returns an object, and a rejection carries a non-empty reason.  The
    reason is fixed by the first check that fails: "Invalid mnemonic
    format" for anything but a non-empty string; the word-count message
    when the number of words is not an allowed one; the first word that is
    not in the list, quoted, when there is one; "Invalid checksum" in all
    remaining cases. *)
Theorem validateMnemonic_never_throws (this : t) (input : jsval) :
  (exists result,
      validateMnemonic this input = Return result
      /\ (valid result = false ->
          exists reason, error result = Some reason /\ reason <> []))
  /\ ((forall text, input = JStr text -> text = []) ->
      validateMnemonic this input
      = Return (mkValidation false (Some (str "Invalid mnemonic format"))))
  /\ (forall text, input = JStr text -> text <> [] ->
      let words := split_spaces (trim text) in
      (includes_num (wordCount this) (Z.of_nat (length words)) = false ->
       validateMnemonic this input
       = Return (mkValidation false (Some (word_count_reason this))))
      /\ (includes_num (wordCount this) (Z.of_nat (length words)) = true ->
          (exists word, In word words /\ ~ In word (wordList this)) ->
          exists word,
            In word words /\ ~ In word (wordList this)
            /\ validateMnemonic this input
               = Return (mkValidation false
                           (Some (str "Invalid word: " ++ [34] ++ word ++ [34]))))
      /\ (includes_num (wordCount this) (Z.of_nat (length words)) = true ->
          (forall word, In word words -> In word (wordList this)) ->
          validateMnemonic this input
          = Return (mkValidation false (Some (str "Invalid checksum"))))).
Proof.
  split; [|split].
  - destruct (validateMnemonic_rejects this input) as (reason & -> & Hne).
    eexists. split; [reflexivity|]. intros _. eauto.
  - intros Hinput. unfold validateMnemonic.
    rewrite (guard_not_a_phrase input Hinput). reflexivity.
  - intros text Hin Htext words. subst input.
    assert (Hguard : negb (truthy (JStr text))
                     || negb (string_eqb (typeof (JStr text)) (str "string")) = false).
    { destruct text; [done | reflexivity]. }
    unfold validateMnemonic. rewrite Hguard. fold words.
    split; [|split].
    + intros ->. reflexivity.
    + intros -> (word & Hin & Hnot). cbn [negb].
      destruct (find_unknown_Some this words word Hin Hnot) as (first & -> & Hf & Hn).
      exists first. done.
    + intros -> Hall. cbn [negb]. rewrite (find_unknown_None this words Hall).
      destruct (words_to_bits_returns this words Hall) as [bits Hbits].
      destruct (mnemonicToEntropy this text) as [entropy|e] eqn:E.
      * rewrite (verifyChecksum_false this entropy (mnemonicToEntropy_nonempty _ _ _ E)).
        reflexivity.
      * unfold mnemonicToEntropy in E. fold words in E. rewrite Hbits in E. done.
Qed.

Lemma generateMnemonic_returns (this : t) (n : Z) (w : World) :
  includes_num (wordCount this) n = true ->
  0 <= trunc ((num n * num 11 - num n / num 3) / num 8) ->
  exists phrase w', generateMnemonic this n w = (Return phrase, w').
Proof.
  intros Hinc Hlen. unfold generateMnemonic. rewrite Hinc. cbn [negb].
  unfold SecurityConfig.generateSecureRandom.
  destruct (_ <? 0) eqn:E; [lia|].
  unfold bind, get_world, modify, alloc, read_view, SecurityConfig.zeroBuffer, ret.
  eauto.
Qed.

(** C1, as the code has it.  For each of the five word counts
    [generateMnemonic] returns a phrase, and [validateMnemonic] rejects that
    phrase, whatever the word list and the random bytes: the checksum bits
    are read from a promise that was never awaited. *)
Theorem generateMnemonic_fails_validation (words : list jsstring) (n : Z) (w : World) :
  In n [12; 15; 18; 21; 24] ->
  exists phrase w' reason,
    generateMnemonic (with_wordList words) n w = (Return phrase, w')
    /\ validateMnemonic (with_wordList words) (JStr phrase)
       = Return (mkValidation false (Some reason)).
Proof.
  intros Hn.
  assert (Hret : exists phrase w',
             generateMnemonic (with_wordList words) n w = (Return phrase, w')).
  { apply generateMnemonic_returns;
      simpl in Hn; destruct Hn as [<-|[<-|[<-|[<-|[<-|[]]]]]]; vm_compute; congruence. }
  destruct Hret as (phrase & w' & Hgen).
  destruct (validateMnemonic_rejects (with_wordList words) (JStr phrase))
    as (reason & Hval & _).
  eauto 6.
Qed.

End MnemonicClaims.

(** The source's word list, the demo host and all-zero random bytes: twelve
    times "abandon", refused for its checksum. *)
Lemma generateMnemonic_fails_validation_witness :
  In 12 [12; 15; 18; 21; 24]
  /\ exists phrase w' reason,
      MnemonicManager.generateMnemonic (H := Demo.host)
        (MnemonicManager.with_wordList MnemonicManager.getEnglishWordList) 12
        Demo.zero_world = (Return phrase, w')
      /\ MnemonicManager.validateMnemonic (H := Demo.host)
           (MnemonicManager.with_wordList MnemonicManager.getEnglishWordList)
           (JStr phrase)
         = Return (MnemonicManager.mkValidation false (Some reason)).
Proof.
  split; [simpl; auto|].
  apply (generateMnemonic_fails_validation MnemonicManager.getEnglishWordList 12
           Demo.zero_world).
  simpl; auto.
Defined.

Example generateMnemonic_zero_entropy :
  exists w',
    MnemonicManager.generateMnemonic (H := Demo.host) MnemonicManager.new 12
      Demo.zero_world
    = (Return Demo.phrase, w')
    /\ MnemonicManager.validateMnemonic (H := Demo.host) MnemonicManager.new
         (JStr Demo.phrase)
       = Return (MnemonicManager.mkValidation false (Some (str "Invalid checksum"))).
Proof. eexists. split; vm_compute; reflexivity. Qed.

(** ** Bytes and base64 *)

Lemma byte_to_Z_range (b : byte) : 0 <= byte_to_Z b < 256.
Proof.
  unfold byte_to_Z. pose proof (Byte.to_N_bounded b) as Hb. lia.
Qed.

Lemma byte_of_to_Z (b : byte) : byte_of_Z (byte_to_Z b) = b.
Proof.
  unfold byte_of_Z. pose proof (byte_to_Z_range b) as Hr.
  rewrite Z.mod_small by lia. unfold byte_to_Z. rewrite N2Z.id, Byte.of_to_N. done.
Qed.

Lemma map_byte_of_to_Z (bs : list byte) : map byte_of_Z (map byte_to_Z bs) = bs.
Proof. induction bs as [|b bs IH]; simpl; [done | by rewrite byte_of_to_Z, IH]. Qed.

Lemma list_ind3 {A} (P : list A -> Prop) :
  P [] -> (forall a, P [a]) -> (forall a b, P [a; b]) ->
  (forall a b c l, P l -> P (a :: b :: c :: l)) ->
  forall l, P l.
Proof.
  intros H0 H1 H2 H3. fix IH 1. intros [|a [|b [|c l]]].
  - exact H0.
  - exact (H1 a).
  - exact (H2 a b).
  - exact (H3 a b c l (IH l)).
Qed.

Lemma b64_value_char (n : Z) : 0 <= n < 64 -> b64_value (b64_char n) = Some n.
Proof.
  intros Hn. unfold b64_char, b64_value.
  destruct (Z.ltb_spec n 26); [|destruct (Z.ltb_spec n 52); [|destruct (Z.ltb_spec n 62);
    [|destruct (Z.eqb_spec n 62)]]];
  repeat match goal with
         | |- context [?a <=? ?b] => destruct (Z.leb_spec a b); try lia; cbn [andb]
         | |- context [?a =? ?b] => destruct (Z.eqb_spec a b); try lia
         end;
  f_equal; lia.
Qed.

Lemma b64_char_plain (n : Z) :
  0 <= n < 64 -> b64_char n <> 61 /\ is_ascii_whitespace (b64_char n) = false.
Proof.
  intros Hn. unfold b64_char, is_ascii_whitespace.
  destruct (Z.ltb_spec n 26); [|destruct (Z.ltb_spec n 52); [|destruct (Z.ltb_spec n 62);
    [|destruct (Z.eqb_spec n 62)]]];
  (split; [lia|]);
  repeat match goal with
         | |- context [?a =? ?b] => destruct (Z.eqb_spec a b); try lia
         end; reflexivity.
Qed.

Lemma sextets3_range a b c :
  0 <= a < 256 -> 0 <= b < 256 -> 0 <= c < 256 ->
  Forall (fun n => 0 <= n < 64) (sextets3 a b c).
Proof.
  intros Ha Hb Hc. unfold sextets3.
  pose proof (Z.mod_pos_bound a 4). pose proof (Z.mod_pos_bound b 16).
  pose proof (Z.mod_pos_bound c 64).
  assert (0 <= a / 4 < 64) by (split; [apply Z.div_pos | apply Z.div_lt_upper_bound]; lia).
  assert (0 <= b / 16 < 16) by (split; [apply Z.div_pos | apply Z.div_lt_upper_bound]; lia).
  assert (0 <= c / 64 < 4) by (split; [apply Z.div_pos | apply Z.div_lt_upper_bound]; lia).
  repeat constructor; lia.
Qed.

Lemma b64_sextets_range bs :
  is_bytes bs -> Forall (fun n => 0 <= n < 64) (b64_sextets bs).
Proof.
  unfold is_bytes. induction bs as [|a|a b|a b c l IH] using list_ind3; intros Hb.
  - constructor.
  - inversion_clear Hb as [|? ? Ha _]. cbn [b64_sextets].
    pose proof (Z.mod_pos_bound a 4).
    assert (0 <= a / 4 < 64) by (split; [apply Z.div_pos | apply Z.div_lt_upper_bound]; lia).
    repeat constructor; lia.
  - inversion_clear Hb as [|? ? Ha Hb']. inversion_clear Hb' as [|? ? Hb _].
    cbn [b64_sextets].
    pose proof (Z.mod_pos_bound a 4). pose proof (Z.mod_pos_bound b 16).
    assert (0 <= a / 4 < 64) by (split; [apply Z.div_pos | apply Z.div_lt_upper_bound]; lia).
    assert (0 <= b / 16 < 16) by (split; [apply Z.div_pos | apply Z.div_lt_upper_bound]; lia).
    repeat constructor; lia.
  - inversion_clear Hb as [|? ? Ha Hb']. inversion_clear Hb' as [|? ? Hb Hb''].
    inversion_clear Hb'' as [|? ? Hc Hl].
    cbn [b64_sextets]. apply Forall_app. split; [by apply sextets3_range | by apply IH].
Qed.

Lemma b64_decode_sextets bs : is_bytes bs -> b64_decode (b64_sextets bs) = bs.
Proof.
  unfold is_bytes. induction bs as [|a|a b|a b c l IH] using list_ind3; intros Hb.
  - reflexivity.
  - inversion_clear Hb as [|? ? Ha _]. cbn [b64_sextets b64_decode].
    f_equal. rewrite Z.div_mul by lia. pose proof (Z.div_mod a 4). lia.
  - inversion_clear Hb as [|? ? Ha Hb']. inversion_clear Hb' as [|? ? Hb _].
    cbn [b64_sextets b64_decode].
    pose proof (Z.mod_pos_bound a 4). pose proof (Z.mod_pos_bound b 16).
    assert (0 <= b / 16 < 16) by (split; [apply Z.div_pos | apply Z.div_lt_upper_bound]; lia).
    assert (E1 : ((a mod 4) * 16 + b / 16) / 16 = a mod 4).
    { rewrite Z.div_add_l by lia. rewrite (Z.div_small (b / 16)) by lia. lia. }
    assert (E2 : ((a mod 4) * 16 + b / 16) mod 16 = b / 16).
    { rewrite Z.add_comm, Z.mod_add by lia. apply Z.mod_small. lia. }
    assert (E3 : ((b mod 16) * 4) / 4 = b mod 16) by (apply Z.div_mul; lia).
    rewrite E1, E2, E3.
    pose proof (Z.div_mod a 4). pose proof (Z.div_mod b 16).
    f_equal; [lia|]. f_equal. lia.
  - inversion_clear Hb as [|? ? Ha Hb']. inversion_clear Hb' as [|? ? Hb Hb''].
    inversion_clear Hb'' as [|? ? Hc Hl].
    cbn [b64_sextets sextets3 app b64_decode]. rewrite (IH Hl).
    pose proof (Z.mod_pos_bound a 4). pose proof (Z.mod_pos_bound b 16).
    pose proof (Z.mod_pos_bound c 64).
    assert (0 <= b / 16 < 16) by (split; [apply Z.div_pos | apply Z.div_lt_upper_bound]; lia).
    assert (0 <= c / 64 < 4) by (split; [apply Z.div_pos | apply Z.div_lt_upper_bound]; lia).
    assert (E1 : ((a mod 4) * 16 + b / 16) / 16 = a mod 4).
    { rewrite Z.div_add_l by lia. rewrite (Z.div_small (b / 16)) by lia. lia. }
    assert (E2 : ((a mod 4) * 16 + b / 16) mod 16 = b / 16).
    { rewrite Z.add_comm, Z.mod_add by lia. apply Z.mod_small. lia. }
    assert (E3 : ((b mod 16) * 4 + c / 64) / 4 = b mod 16).
    { rewrite Z.div_add_l by lia. rewrite (Z.div_small (c / 64)) by lia. lia. }
    assert (E4 : ((b mod 16) * 4 + c / 64) mod 4 = c / 64).
    { rewrite Z.add_comm, Z.mod_add by lia. apply Z.mod_small. lia. }
    rewrite E1, E2, E3, E4.
    pose proof (Z.div_mod a 4). pose proof (Z.div_mod b 16). pose proof (Z.div_mod c 64).
    f_equal; [lia|]. f_equal; [lia|]. f_equal. lia.
Qed.

Lemma b64_values_chars ns :
  Forall (fun n => 0 <= n < 64) ns -> b64_values (map b64_char ns) = Some ns.
Proof.
  induction 1 as [|n ns Hn _ IH]; cbn [map b64_values]; [done|].
  rewrite (b64_value_char n Hn), IH. done.
Qed.

Lemma strip_padding_body ns tail :
  Forall (fun n => 0 <= n < 64) ns ->
  (tail = [] \/ tail = [61] \/ tail = [61; 61]) ->
  strip_padding (map b64_char ns ++ tail) = map b64_char ns.
Proof.
  intros Hns Htail. induction Hns as [|n ns Hn _ IH]; cbn [map app].
  - destruct Htail as [-> | [-> | ->]]; reflexivity.
  - cbn [strip_padding]. destruct (b64_char_plain n Hn) as [Hpad _].
    destruct (Z.eqb_spec (b64_char n) 61); [done|]. cbn [andb]. by rewrite IH.
Qed.

Lemma filter_whitespace_body ns tail :
  Forall (fun n => 0 <= n < 64) ns ->
  (tail = [] \/ tail = [61] \/ tail = [61; 61]) ->
  List.filter (fun c => negb (is_ascii_whitespace c)) (map b64_char ns ++ tail)
  = map b64_char ns ++ tail.
Proof.
  intros Hns Htail. induction Hns as [|n ns Hn _ IH]; cbn [map app].
  - destruct Htail as [-> | [-> | ->]]; reflexivity.
  - cbn [List.filter]. destruct (b64_char_plain n Hn) as [_ ->].
    cbn [negb]. by rewrite IH.
Qed.

(** The encoder's output is the sextets' characters, then the padding. *)
Lemma b64_encode_shape bs :
  exists tail,
    b64_encode bs = map b64_char (b64_sextets bs) ++ tail
    /\ (tail = [] \/ tail = [61] \/ tail = [61; 61])
    /\ ((length (b64_sextets bs) + length tail) mod 4 = 0)%nat
    /\ (length (b64_sextets bs) mod 4 <> 1)%nat.
Proof.
  induction bs as [|a|a b|a b c l IH] using list_ind3.
  - exists []. simpl. auto.
  - exists [61; 61]. simpl. auto.
  - exists [61]. simpl. auto.
  - destruct IH as (tail & IH & Htail & Hlen & Hneq). exists tail.
    cbn [b64_encode b64_sextets sextets3 app map]. rewrite IH.
    split; [reflexivity|]. split; [done|]. cbn [length].
    split.
    + replace (S (S (S (S (length (b64_sextets l))))) + length tail)%nat
        with (length (b64_sextets l) + length tail + 1 * 4)%nat by lia.
      rewrite Nat.Div0.mod_add. done.
    + replace (S (S (S (S (length (b64_sextets l))))))
        with (length (b64_sextets l) + 1 * 4)%nat by lia.
      rewrite Nat.Div0.mod_add. done.
Qed.

(** [atob] undoes [btoa] on binary strings. *)
Lemma atob_encode bs : is_bytes bs -> atob (b64_encode bs) = Return bs.
Proof.
  intros Hbs. unfold atob.
  pose proof (b64_sextets_range bs Hbs) as Hrange.
  destruct (b64_encode_shape bs) as (tail & -> & Htail & Hlen & Hneq).
  rewrite (filter_whitespace_body _ _ Hrange Htail).
  assert (Hmod : Z.of_nat (length (map b64_char (b64_sextets bs) ++ tail)) mod 4 = 0).
  { rewrite length_app, length_map.
    change 4 with (Z.of_nat 4). rewrite <- Nat2Z.inj_mod, Hlen. done. }
  rewrite Hmod. cbn [Z.eqb].
  rewrite (strip_padding_body _ _ Hrange Htail).
  assert (Hmod1 : (Z.of_nat (length (map b64_char (b64_sextets bs))) mod 4 =? 1) = false).
  { rewrite length_map. change 4 with (Z.of_nat 4). rewrite <- Nat2Z.inj_mod.
    apply Z.eqb_neq. lia. }
  rewrite Hmod1, (b64_values_chars _ Hrange), (b64_decode_sextets bs Hbs). done.
Qed.

Lemma bytes_are_bytes (bs : list byte) : is_bytes (map byte_to_Z bs).
Proof.
  unfold is_bytes. apply Forall_map, Forall_forall. intros b _. apply byte_to_Z_range.
Qed.

Lemma btoa_bytes (bs : list byte) :
  btoa (map byte_to_Z bs) = Return (b64_encode (map byte_to_Z bs)).
Proof.
  unfold btoa.
  assert (Hall : forallb (fun c => (0 <=? c) && (c <=? 255)) (map byte_to_Z bs) = true).
  { apply forallb_forall. intros c Hc. apply in_map_iff in Hc as (b & <- & _).
    pose proof (byte_to_Z_range b). apply andb_true_iff. split; apply Z.leb_le; lia. }
  by rewrite Hall.
Qed.

(** What [base64ToArrayBuffer] reads back from [arrayBufferToBase64]. *)
Lemma atob_btoa_bytes (bs : list byte) (text : jsstring) :
  btoa (map byte_to_Z bs) = Return text ->
  exists binary, atob text = Return binary /\ map byte_of_Z binary = bs.
Proof.
  rewrite btoa_bytes. intros [= <-]. exists (map byte_to_Z bs).
  split; [apply atob_encode, bytes_are_bytes | apply map_byte_of_to_Z].
Qed.

(** ** Running calls in a world *)

Lemma bind_run {A B} (m : M A) (k : A -> M B) (w w1 : World) (a : A) :
  m w = (Return a, w1) -> bind m k w = k a w1.
Proof. intros Hm. unfold bind. by rewrite Hm. Qed.

Lemma bind_throw {A B} (m : M A) (k : A -> M B) (w w1 : World) (e : exn) :
  m w = (Throw e, w1) -> bind m k w = (Throw e, w1).
Proof. intros Hm. unfold bind. by rewrite Hm. Qed.

Lemma bind_returns {A B} (m : M A) (k : A -> M B) (w w' : World) (b : B) :
  bind m k w = (Return b, w') ->
  exists a w1, m w = (Return a, w1) /\ k a w1 = (Return b, w').
Proof.
  unfold bind. destruct (m w) as [[a|e] w1]; [eauto | done].
Qed.

Lemma frame_refl w : frame w w.
Proof. by split. Qed.

Lemma frame_trans w w1 w2 : frame w w1 -> frame w1 w2 -> frame w w2.
Proof. intros [] []. split; congruence. Qed.

Lemma keeps_buffers_refl w : keeps_buffers w w.
Proof. by intros id bytes. Qed.

Lemma keeps_buffers_trans w w1 w2 :
  keeps_buffers w w1 -> keeps_buffers w1 w2 -> keeps_buffers w w2.
Proof. intros H1 H2 id bytes Hid. eauto. Qed.

Lemma grows_refl w : grows w w.
Proof. split; [apply keeps_buffers_refl | apply frame_refl | done]. Qed.

Lemma grows_trans w w1 w2 : grows w w1 -> grows w1 w2 -> grows w w2.
Proof.
  intros [] []. split;
    [by eapply keeps_buffers_trans | by eapply frame_trans | congruence].
Qed.

Lemma buffer_bytes_lookup w id bytes :
  heap w !! id = Some bytes -> buffer_bytes w id = bytes.
Proof. unfold buffer_bytes. by intros ->. Qed.

Lemma alloc_buffer_spec (bytes : list byte) (w : World) :
  exists id w1,
    alloc_buffer bytes w = (Return id, w1)
    /\ heap w1 !! id = Some bytes /\ grows w w1.
Proof.
  exists (length (heap w)), (set_heap (heap w ++ [bytes]) w).
  split; [reflexivity|]. split.
  - cbn [heap set_heap]. by apply list_lookup_middle.
  - split; [|by split|done].
    intros id x Hid. cbn [heap set_heap]. by apply lookup_app_l_Some.
Qed.

Lemma alloc_spec (bytes : list byte) (w : World) :
  exists id w1,
    alloc bytes w = (Return (mkView id 0 (length bytes)), w1)
    /\ heap w1 !! id = Some bytes /\ grows w w1.
Proof.
  exists (length (heap w)), (set_heap (heap w ++ [bytes]) w).
  split; [reflexivity|]. split.
  - cbn [heap set_heap]. by apply list_lookup_middle.
  - split; [|by split|done].
    intros id x Hid. cbn [heap set_heap]. by apply lookup_app_l_Some.
Qed.

Lemma read_buffer_spec (id : nat) (bytes : list byte) (w : World) :
  heap w !! id = Some bytes -> read_buffer id w = (Return bytes, w).
Proof. intros Hid. unfold read_buffer. by rewrite (buffer_bytes_lookup _ _ _ Hid). Qed.

Lemma read_whole_view_spec (id : nat) (bytes : list byte) (w : World) :
  heap w !! id = Some bytes ->
  read_view (mkView id 0 (length bytes)) w = (Return bytes, w).
Proof.
  intros Hid. unfold read_view, view_bytes. cbn [view_buffer byteOffset view_length].
  rewrite (buffer_bytes_lookup _ _ _ Hid), drop_0, firstn_all. done.
Qed.

Lemma trunc_num (z : Z) : trunc (num z) = z.
Proof.
  unfold trunc, num. destruct (Qle_bool 0 (inject_Z z)); [apply Qfloor_Z | apply Qceiling_Z].
Qed.

Lemma generateSecureRandom_spec (n : nat) (w : World) :
  exists id w1,
    SecurityConfig.generateSecureRandom (num (Z.of_nat n)) w
    = (Return (mkView id 0 n), w1)
    /\ heap w1 !! id = Some (EncryptionManager.random_run w (random_used w) n)
    /\ keeps_buffers w w1 /\ frame w w1
    /\ random_used w1 = (random_used w + n)%nat.
Proof.
  unfold SecurityConfig.generateSecureRandom. rewrite trunc_num.
  destruct (Z.ltb_spec (Z.of_nat n) 0); [lia|]. rewrite Nat2Z.id.
  exists (length (heap w)),
    (set_heap (heap w ++ [EncryptionManager.random_run w (random_used w) n])
       (set_random_used (random_used w + n) w)).
  split.
  - unfold bind, get_world, modify, alloc, EncryptionManager.random_run.
    cbn [heap set_heap set_random_used random_bytes random_used].
    rewrite length_map, length_seq. reflexivity.
  - cbn [heap set_heap set_random_used random_used]. split; [by apply list_lookup_middle|].
    split; [|split; [by split | done]].
    intros id x Hid. cbn [heap set_heap]. by apply lookup_app_l_Some.
Qed.

Lemma random_run_length w from n : length (EncryptionManager.random_run w from n) = n.
Proof. unfold EncryptionManager.random_run. by rewrite length_map, length_seq. Qed.

Lemma random_run_frame w w1 from n :
  frame w w1 -> EncryptionManager.random_run w1 from n = EncryptionManager.random_run w from n.
Proof. intros [_ _ _ Hr _ _]. unfold EncryptionManager.random_run. by rewrite Hr. Qed.

(** [zeroBuffer] on a typed array does nothing. *)
Lemma zeroBuffer_view (view : Uint8Array) (w : World) :
  SecurityConfig.zeroBuffer (JUint8Array view) w = (Return (JUint8Array view), w).
Proof. reflexivity. Qed.

(** [zeroBuffer] on an [ArrayBuffer] overwrites it with zeros. *)
Lemma zeroBuffer_buffer_spec (id : nat) (bytes : list byte) (w : World) :
  heap w !! id = Some bytes ->
  exists w1,
    SecurityConfig.zeroBuffer (JArrayBuffer id) w = (Return (JArrayBuffer id), w1)
    /\ heap w1 !! id = Some (replicate (length bytes) Byte.x00)
    /\ (forall id' x, id' <> id -> heap w !! id' = Some x -> heap w1 !! id' = Some x)
    /\ frame w w1 /\ random_used w1 = random_used w.
Proof.
  intros Hid.
  exists (set_heap (<[id := replicate (length bytes) Byte.x00]> (heap w)) w).
  split.
  - unfold SecurityConfig.zeroBuffer, bind, get_world, modify, ret.
    by rewrite (buffer_bytes_lookup _ _ _ Hid).
  - cbn [heap set_heap]. split.
    + apply list_lookup_insert_eq. by eapply lookup_lt_Some.
    + split; [|split; [by split | done]].
      intros id' x Hne Hx. by rewrite list_lookup_insert_ne.
Qed.

(** ** The encryption module *)

Section EncryptionFacts.
Context {H : Host}.
Import EncryptionManager.

Lemma typed_set_fill (pre src : list byte) (k : nat) :
  typed_set (pre ++ replicate (length src + k) Byte.x00) src (length pre)
  = Return (pre ++ src ++ replicate k Byte.x00).
Proof.
  unfold typed_set.
  rewrite bool_decide_eq_true_2 by (rewrite length_app, length_replicate; lia).
  rewrite take_app_length, drop_app_add, drop_replicate_add. done.
Qed.

(** The three [result.set] calls lay salt, nonce and sealed data end to
    end. *)
Lemma envelope_assembled (salt iv sealed : list byte) :
  exists part1 part2,
    typed_set (replicate (length salt + length iv + length sealed) Byte.x00) salt 0
    = Return part1
    /\ typed_set part1 iv (length salt) = Return part2
    /\ typed_set part2 sealed (length salt + length iv) = Return (salt ++ iv ++ sealed).
Proof.
  exists (salt ++ replicate (length iv + length sealed) Byte.x00),
         ((salt ++ iv) ++ replicate (length sealed + 0) Byte.x00).
  split; [|split].
  - rewrite <- Nat.add_assoc. apply (typed_set_fill [] salt).
  - rewrite (typed_set_fill salt iv), Nat.add_0_r, app_assoc. done.
  - rewrite <- length_app, (typed_set_fill (salt ++ iv) sealed 0).
    cbn [replicate]. by rewrite app_nil_r, app_assoc.
Qed.

Lemma holds_keeps w w1 source bytes :
  keeps_buffers w w1 -> holds w source bytes -> holds w1 source bytes.
Proof.
  intros Hk. destruct source; cbn [holds]; try done.
  - apply Hk.
  - intros (whole & Hw & ->). exists whole. split; [by apply Hk | done].
Qed.

Lemma holds_read w source bytes :
  holds w source bytes -> bytes_of_source source w = (Return bytes, w).
Proof.
  destruct source; cbn [holds bytes_of_source]; try done.
  - apply read_buffer_spec.
  - intros (whole & Hw & ->). unfold read_view, view_bytes.
    by rewrite (buffer_bytes_lookup _ _ _ Hw).
Qed.

Lemma holds_truthy w source bytes : holds w source bytes -> truthy source = true.
Proof. destruct source; cbn [holds]; done. Qed.

Lemma holds_whole_view w id bytes :
  heap w !! id = Some bytes -> holds w (JUint8Array (mkView id 0 (length bytes))) bytes.
Proof.
  intros Hid. exists bytes. split; [done|].
  cbn [view_length byteOffset]. by rewrite drop_0, firstn_all.
Qed.

Lemma deriveKey_spec (password : jsstring) (salt : jsval) (saltBytes : list byte)
    (w : World) :
  holds w salt saltBytes ->
  exists w1,
    grows w w1
    /\ deriveKey password salt w
       = (match password with
          | [] => Throw (Error (str "Password and salt required"))
          | _ => subtle_deriveKey hash iterations (str "AES") keySize
                   (TextEncoder_encode password) saltBytes
          end, w1).
Proof.
  intros Hsalt. unfold deriveKey. rewrite (holds_truthy _ _ _ Hsalt).
  destruct password as [|c password]; [exists w; split; [apply grows_refl | reflexivity]|].
  cbn [truthy negb orb].
  set (pw := c :: password).
  destruct (alloc_spec (TextEncoder_encode pw) w) as (pid & w1 & Ha & Hp & Hg).
  rewrite (bind_run _ _ _ _ _ Ha).
  rewrite (bind_run _ _ _ _ _ (read_whole_view_spec _ _ _ Hp)).
  rewrite (bind_run _ _ _ _ _ (holds_read _ _ _ (holds_keeps _ _ _ _ (grows_buffers _ _ Hg) Hsalt))).
  exists w1. split; [done|].
  change (default [] (head (split_char 45 algorithm))) with (str "AES").
  unfold bind, lift.
  destruct (subtle_deriveKey _ _ _ _ _ _) as [key|e]; [|done].
  unfold zeroBuffer. rewrite zeroBuffer_view. reflexivity.
Qed.

Lemma arrayBufferToBase64_spec (buffer : jsval) (bytes : list byte) (w : World) :
  holds w buffer bytes ->
  arrayBufferToBase64 buffer w = (Return (b64_encode (map byte_to_Z bytes)), w).
Proof.
  intros Hb. unfold arrayBufferToBase64.
  rewrite (bind_run _ _ _ _ _ (holds_read _ _ _ Hb)).
  unfold lift. by rewrite btoa_bytes.
Qed.

Ltac carry Hk :=
  repeat match goal with
         | Hx : heap ?w !! _ = Some _ |- _ =>
             lazymatch type of Hk with
             | keeps_buffers w _ => apply Hk in Hx
             end
         end.

(** [encrypt], run: the envelope is a function of the 28 random bytes
    drawn, the payload and the password; every failure is the one
    [encryption_failed]; on success a buffer passed in is left all zero. *)
Lemma encrypt_spec (data : jsval) (password : jsstring) (w : World) :
  data_exists w data ->
  exists w',
    encrypt data password w
    = (seal_envelope (random_run w (random_used w) 16)
         (random_run w (random_used w + 16) 12) (payload_of w data) password, w')
    /\ frame w w'
    /\ (forall envelope id,
          fst (encrypt data password w) = Return envelope ->
          data_buffer data = Some id ->
          heap w' !! id = Some (replicate (length (buffer_bytes w id)) Byte.x00)).
Proof.
  intros Hdata. unfold encrypt, try_catch.
  change (num saltSize) with (num (Z.of_nat 16)).
  change (num ivSize) with (num (Z.of_nat 12)).
  destruct (generateSecureRandom_spec 16 w) as (sid & w1 & Hs & Hsalt & Hk1 & Hf1 & Hr1).
  rewrite (bind_run _ _ _ _ _ Hs).
  destruct (generateSecureRandom_spec 12 w1) as (iid & w2 & Hi & Hiv & Hk2 & Hf2 & Hr2).
  rewrite (bind_run _ _ _ _ _ Hi).
  rewrite (random_run_frame _ _ _ _ Hf1), Hr1 in Hiv.
  set (salt := random_run w (random_used w) 16) in *.
  set (iv := random_run w (random_used w + 16) 12) in *.
  assert (Hls : length salt = 16%nat) by apply random_run_length.
  assert (Hli : length iv = 12%nat) by apply random_run_length.
  (* the payload, as it will be read *)
  assert (Hpay : match payload_of w data with
                 | Some plain =>
                     match data with
                     | JStr s => plain = TextEncoder_encode s
                     | _ => exists id, data_buffer data = Some id /\ heap w !! id = Some plain
                     end
                 | None => data_buffer data = None /\ forall s, data <> JStr s
                 end).
  { destruct data as [| |b|n|s|items|fields|id|view]; cbn [payload_of data_buffer]; try done.
    - cbn [data_exists data_buffer] in Hdata. destruct Hdata as [bytes Hb].
      exists id. by rewrite (buffer_bytes_lookup _ _ _ Hb).
    - cbn [data_exists data_buffer] in Hdata. destruct Hdata as [bytes Hb].
      exists (view_buffer view). by rewrite (buffer_bytes_lookup _ _ _ Hb). }
  assert (Hframe2 : frame w w2) by (eapply frame_trans; eassumption).
  assert (Hkeep2 : keeps_buffers w w2) by (eapply keeps_buffers_trans; eassumption).
  apply Hk2 in Hsalt.
  clear Hs Hi Hk1 Hk2 Hf1 Hf2 Hr1 Hr2 w1.
  destruct (deriveKey_spec password (JUint8Array (mkView sid 0 16)) salt w2)
    as (w3 & Hg3 & Hkey).
  { rewrite <- Hls. by apply holds_whole_view. }
  unfold seal_envelope.
  destruct password as [|c password].
  { rewrite (bind_throw _ _ _ _ _ Hkey). exists w3.
    split; [reflexivity|]. split.
    - eapply frame_trans; [exact Hframe2 | apply Hg3].
    - intros envelope id Hret. done. }
  set (pw := c :: password) in *.
  destruct (subtle_deriveKey hash iterations (str "AES") keySize
              (TextEncoder_encode pw) salt) as [key|e].
  2:{ rewrite (bind_throw _ _ _ _ _ Hkey). exists w3.
      split; [reflexivity|]. split.
      - eapply frame_trans; [exact Hframe2 | apply Hg3].
      - intros envelope id Hret. done. }
  rewrite (bind_run _ _ _ _ _ Hkey).
  assert (Hframe3 : frame w w3) by (eapply frame_trans; [exact Hframe2 | apply Hg3]).
  assert (Hkeep3 : keeps_buffers w w3)
    by (eapply keeps_buffers_trans; [exact Hkeep2 | apply Hg3]).
  pose proof (grows_buffers _ _ Hg3) as Hk3. apply Hk3 in Hsalt, Hiv.
  clear Hkey Hg3 Hk3 Hframe2 Hkeep2 w2.
  (* the data buffer *)
  assert (Hbuf : exists dataBuffer w4,
             (match data with
              | JStr s => do encoded <- alloc (TextEncoder_encode s); ret (JUint8Array encoded)
              | JUint8Array view => ret (JArrayBuffer (view_buffer view))
              | _ => ret data
              end) w3 = (Return dataBuffer, w4)
             /\ grows w3 w4
             /\ match payload_of w data with
                | Some plain => holds w4 dataBuffer plain
                | None => forall bytes, ~ holds w4 dataBuffer bytes
                end
             /\ match data with
                | JStr _ => exists view, dataBuffer = JUint8Array view
                | JUint8Array view => dataBuffer = JArrayBuffer (view_buffer view)
                | _ => dataBuffer = data
                end).
  { destruct data as [| |b|n|s|items|fields|id|view]; cbn [payload_of data_buffer] in *;
      try (eexists _, w3; split; [reflexivity|]; split; [apply grows_refl|];
           split; [intros bytes [] | reflexivity]).
    - destruct (alloc_spec (TextEncoder_encode s) w3) as (eid & w4 & Ha & He & Hg).
      exists (JUint8Array (mkView eid 0 (length (TextEncoder_encode s)))), w4.
      split; [by rewrite (bind_run _ _ _ _ _ Ha)|]. split; [done|].
      split; [by apply holds_whole_view | eauto].
    - destruct Hpay as (id' & [= <-] & Hb).
      exists (JArrayBuffer id), w3. split; [reflexivity|]. split; [apply grows_refl|].
      split; [|done]. cbn [holds]. by apply Hkeep3.
    - destruct Hpay as (id' & [= <-] & Hb).
      exists (JArrayBuffer (view_buffer view)), w3.
      split; [reflexivity|]. split; [apply grows_refl|].
      split; [|done]. cbn [holds]. by apply Hkeep3. }
  destruct Hbuf as (dataBuffer & w4 & Hdb & Hg4 & Hholds & Hshape).
  rewrite (bind_run _ _ _ _ _ Hdb).
  assert (Hframe4 : frame w w4) by (eapply frame_trans; [exact Hframe3 | apply Hg4]).
  assert (Hkeep4 : keeps_buffers w w4)
    by (eapply keeps_buffers_trans; [exact Hkeep3 | apply Hg4]).
  pose proof (grows_buffers _ _ Hg4) as Hk4. apply Hk4 in Hsalt, Hiv.
  clear Hdb Hg4 Hk4 Hframe3 Hkeep3 w3.
  assert (Hiv' : heap w4 !! iid = Some iv) by done.
  assert (Hiv4 : read_view (mkView iid 0 12) w4 = (Return iv, w4)).
  { rewrite <- Hli. by apply read_whole_view_spec. }
  rewrite (bind_run _ _ _ _ _ Hiv4).
  destruct (payload_of w data) as [plain|].
  2:{ assert (Hthrow : exists e, bytes_of_source dataBuffer w4 = (Throw e, w4)).
      { destruct Hpay as [Hnone Hstr].
        destruct data as [| |b|n|s|items|fields|id|view];
          cbn [data_buffer] in Hnone; try done; try (by destruct (Hstr s));
          simpl in Hshape; subst dataBuffer; eexists; reflexivity. }
      destruct Hthrow as [e Hthrow]. rewrite (bind_throw _ _ _ _ _ Hthrow).
      exists w4. split; [reflexivity|]. split; [done|]. intros envelope id Hret. done. }
  rewrite (bind_run _ _ _ _ _ (holds_read _ _ _ Hholds)).
  unfold bind at 1, lift at 1.
  destruct (subtle_encrypt algorithm iv key plain) as [sealed|e].
  2:{ exists w4. split; [reflexivity|]. split; [done|]. intros envelope id Hret. done. }
  destruct (alloc_buffer_spec sealed w4) as (cid & w5 & Hc & Hsealed & Hg5).
  rewrite (bind_run _ _ _ _ _ Hc).
  pose proof (grows_buffers _ _ Hg5) as Hk5. apply Hk5 in Hsalt, Hiv'.
  pose proof (holds_keeps _ _ _ _ Hk5 Hholds) as Hholds5.
  cbn [view_length].
  destruct (envelope_assembled salt iv sealed) as (part1 & part2 & Hp1 & Hp2 & Hp3).
  rewrite Hls, Hli in Hp1. rewrite Hls in Hp2. rewrite Hls, Hli in Hp3.
  assert (Hsalt' : read_view (mkView sid 0 16) w5 = (Return salt, w5)).
  { rewrite <- Hls. by apply read_whole_view_spec. }
  assert (Hiv5 : read_view (mkView iid 0 12) w5 = (Return iv, w5)).
  { rewrite <- Hli. by apply read_whole_view_spec. }
  rewrite (bind_run _ _ _ _ _ Hsalt').
  unfold bind at 1, lift at 1. rewrite Hp1.
  rewrite (bind_run _ _ _ _ _ Hiv5).
  unfold bind at 1, lift at 1. rewrite Hp2.
  rewrite (bind_run _ _ _ _ _ (read_buffer_spec _ _ _ Hsealed)).
  unfold bind at 1, lift at 1. rewrite Hp3.
  destruct (alloc_spec (salt ++ iv ++ sealed) w5) as (rid & w6 & Hr & Hres & Hg6).
  rewrite (bind_run _ _ _ _ _ Hr).
  pose proof (grows_buffers _ _ Hg6) as Hk6.
  pose proof (holds_keeps _ _ _ _ Hk6 Hholds5) as Hholds6.
  rewrite (bind_run _ _ _ _ _
             (arrayBufferToBase64_spec _ _ _ (holds_whole_view _ _ _ Hres))).
  unfold zeroBuffer.
  rewrite (bind_run _ _ _ _ _ (zeroBuffer_view _ _)).
  rewrite (bind_run _ _ _ _ _ (zeroBuffer_view _ _)).
  assert (Hframe6 : frame w w6).
  { eapply frame_trans; [exact Hframe4|]. eapply frame_trans; [apply Hg5 | apply Hg6]. }
  assert (Hkeep6 : keeps_buffers w w6).
  { eapply keeps_buffers_trans; [exact Hkeep4|].
    eapply keeps_buffers_trans; [apply Hg5 | apply Hg6]. }
  fold (envelope_of salt iv sealed).
  destruct data as [| |b|n|s|items|fields|id|view];
    try (exfalso; destruct Hpay as (id' & Hid' & _); done).
  - destruct Hshape as [view ->].
    rewrite (bind_run _ _ _ _ _ (zeroBuffer_view _ _)).
    exists w6. split; [reflexivity|]. split; [done|]. intros envelope id' _. done.
  - subst dataBuffer. destruct Hdata as [bytes Hb].
    destruct (zeroBuffer_buffer_spec id bytes w6 (Hkeep6 _ _ Hb))
      as (w7 & Hz & Hzero & _ & Hf7 & _).
    rewrite (bind_run _ _ _ _ _ Hz). exists w7. split; [reflexivity|].
    split; [by eapply frame_trans|].
    intros envelope id' _ [= <-]. by rewrite (buffer_bytes_lookup _ _ _ Hb).
  - subst dataBuffer. destruct Hdata as [bytes Hb].
    destruct (zeroBuffer_buffer_spec (view_buffer view) bytes w6 (Hkeep6 _ _ Hb))
      as (w7 & Hz & Hzero & _ & Hf7 & _).
    rewrite (bind_run _ _ _ _ _ Hz). exists w7. split; [reflexivity|].
    split; [by eapply frame_trans|].
    intros envelope id' _ [= <-]. by rewrite (buffer_bytes_lookup _ _ _ Hb).
Qed.

End EncryptionFacts.

Section DecryptionFacts.
Context {H : Host}.
Import EncryptionManager.

Lemma clamp_nat (len a : nat) : clamp (Z.of_nat len) (Z.of_nat a) = Z.of_nat (min a len).
Proof. unfold clamp. destruct (Z.ltb_spec (Z.of_nat a) 0); lia. Qed.

Lemma slice_range {A} (l : list A) (a b : nat) :
  (a <= b)%nat ->
  slice l (num (Z.of_nat a)) (Some (num (Z.of_nat b))) = take (b - a) (drop a l).
Proof.
  intros Hab. unfold slice. rewrite !trunc_num, !clamp_nat.
  replace (Z.to_nat (Z.of_nat (min b (length l)) - Z.of_nat (min a (length l))))
    with (min b (length l) - min a (length l))%nat by lia.
  rewrite Nat2Z.id.
  destruct (decide (length l <= a)%nat) as [Hle|Hlt].
  - rewrite !drop_ge by lia. by rewrite !take_nil.
  - rewrite (Nat.min_l a) by lia.
    destruct (decide (b <= length l)%nat) as [Hb|Hb].
    + by rewrite (Nat.min_l b) by lia.
    + rewrite (Nat.min_r b) by lia.
      rewrite !take_ge by (rewrite length_drop; lia). done.
Qed.

Lemma slice_from {A} (l : list A) (a : nat) :
  slice l (num (Z.of_nat a)) None = drop a l.
Proof.
  unfold slice. rewrite trunc_num, clamp_nat, Nat2Z.id.
  replace (Z.to_nat (Z.of_nat (length l) - Z.of_nat (min a (length l))))
    with (length l - min a (length l))%nat by lia.
  destruct (decide (length l <= a)%nat) as [Hle|Hlt].
  - rewrite !drop_ge by lia. by rewrite take_nil.
  - rewrite (Nat.min_l a) by lia. apply take_ge. rewrite length_drop. lia.
Qed.

Lemma buffer_slice_spec (id : nat) (bytes : list byte) (start : Z) (stop : option Z)
    (w : World) :
  heap w !! id = Some bytes ->
  exists id' w1,
    buffer_slice id start stop w = (Return id', w1)
    /\ heap w1 !! id' = Some (slice bytes (num start) (option_map num stop))
    /\ grows w w1.
Proof.
  intros Hid. unfold buffer_slice.
  rewrite (bind_run _ _ _ _ _ (read_buffer_spec _ _ _ Hid)).
  apply alloc_buffer_spec.
Qed.

Lemma zeroBuffer_frame (buffer : jsval) (w : World) :
  exists buffer' w1,
    SecurityConfig.zeroBuffer buffer w = (Return buffer', w1) /\ frame w w1.
Proof.
  destruct buffer; try (eexists _, w; split; [reflexivity | apply frame_refl]).
  eexists _, _. split; [reflexivity|]. by split.
Qed.

Lemma base64ToArrayBuffer_spec (base64 : jsval) (w : World) :
  match atob (ToString w base64) with
  | Return binary =>
      exists id w1,
        base64ToArrayBuffer base64 w = (Return id, w1)
        /\ heap w1 !! id = Some (map byte_of_Z binary) /\ grows w w1
  | Throw e => base64ToArrayBuffer base64 w = (Throw e, w)
  end.
Proof.
  unfold base64ToArrayBuffer.
  rewrite (bind_run _ _ _ _ _ (eq_refl : get_world w = (Return w, w))).
  unfold bind, lift. destruct (atob (ToString w base64)) as [binary|e]; [|done].
  apply alloc_buffer_spec.
Qed.

(** [decrypt], run: its outcome is [open_envelope] of the envelope's text
    and the password, whatever the world, and it leaves the store and the
    session alone. *)
Lemma decrypt_spec (encryptedData : jsval) (password : jsstring) (w : World) :
  exists w',
    decrypt encryptedData password w
    = (open_envelope (ToString w encryptedData) password, w')
    /\ frame w w'.
Proof.
  unfold decrypt, try_catch, open_envelope.
  pose proof (base64ToArrayBuffer_spec encryptedData w) as Hbuf.
  destruct (atob (ToString w encryptedData)) as [binary|e].
  2:{ rewrite (bind_throw _ _ _ _ _ Hbuf). exists w. split; [reflexivity | apply frame_refl]. }
  set (bytes := map byte_of_Z binary) in *.
  destruct Hbuf as (bid & w1 & Hb & Hbytes & Hg1).
  rewrite (bind_run _ _ _ _ _ Hb).
  change saltSize with (Z.of_nat 16). change ivSize with (Z.of_nat 12).
  change (Z.of_nat 16 + Z.of_nat 12) with (Z.of_nat 28).
  destruct (buffer_slice_spec bid bytes (Z.of_nat 0) (Some (Z.of_nat 16)) w1 Hbytes)
    as (sid & w2 & Hs & Hsalt & Hg2).
  pose proof (grows_buffers _ _ Hg2) as Hk2. apply Hk2 in Hbytes.
  destruct (buffer_slice_spec bid bytes (Z.of_nat 16) (Some (Z.of_nat 28)) w2 Hbytes)
    as (iid & w3 & Hi & Hiv & Hg3).
  pose proof (grows_buffers _ _ Hg3) as Hk3. apply Hk3 in Hbytes, Hsalt.
  destruct (buffer_slice_spec bid bytes (Z.of_nat 28) None w3 Hbytes)
    as (cid & w4 & Hc & Hct & Hg4).
  pose proof (grows_buffers _ _ Hg4) as Hk4. apply Hk4 in Hsalt, Hiv.
  cbn [option_map] in Hsalt, Hiv, Hct.
  rewrite (slice_range bytes 0 16) in Hsalt by lia.
  rewrite (slice_range bytes 16 28) in Hiv by lia.
  rewrite slice_from in Hct. rewrite drop_0 in Hsalt.
  change (28 - 16)%nat with 12%nat in Hiv. change (16 - 0)%nat with 16%nat in Hsalt.
  unfold envelope_fields.
  set (salt := take 16 bytes) in *. set (iv := take 12 (drop 16 bytes)) in *.
  set (sealed := drop 28 bytes) in *.
  assert (Hframe4 : frame w w4).
  { eapply frame_trans; [apply Hg1|]. eapply frame_trans; [apply Hg2|].
    eapply frame_trans; [apply Hg3 | apply Hg4]. }
  change (Z.of_nat 0) with 0 in Hs.
  rewrite (bind_run _ _ _ _ _ Hs), (bind_run _ _ _ _ _ Hi), (bind_run _ _ _ _ _ Hc).
  destruct (deriveKey_spec password (JArrayBuffer sid) salt w4 Hsalt) as (w5 & Hg5 & Hkey).
  pose proof (grows_buffers _ _ Hg5) as Hk5. apply Hk5 in Hiv, Hct.
  assert (Hframe5 : frame w w5) by (eapply frame_trans; [exact Hframe4 | apply Hg5]).
  destruct password as [|c password].
  { rewrite (bind_throw _ _ _ _ _ Hkey). by exists w5. }
  set (pw := c :: password) in *.
  destruct (subtle_deriveKey hash iterations (str "AES") keySize
              (TextEncoder_encode pw) salt) as [key|e].
  2:{ rewrite (bind_throw _ _ _ _ _ Hkey). by exists w5. }
  rewrite (bind_run _ _ _ _ _ Hkey).
  rewrite (bind_run _ _ _ _ _ (read_buffer_spec _ _ _ Hiv)).
  rewrite (bind_run _ _ _ _ _ (read_buffer_spec _ _ _ Hct)).
  unfold bind at 1, lift at 1.
  destruct (subtle_decrypt algorithm iv key sealed) as [opened|e]; [|by exists w5].
  destruct (alloc_buffer_spec opened w5) as (did & w6 & Hd & Hopened & Hg6).
  rewrite (bind_run _ _ _ _ _ Hd).
  rewrite (bind_run _ _ _ _ _ (read_buffer_spec _ _ _ Hopened)).
  unfold zeroBuffer.
  destruct (zeroBuffer_frame (JArrayBuffer sid) w6) as (v7 & w7 & Hz7 & Hf7).
  rewrite (bind_run _ _ _ _ _ Hz7).
  destruct (zeroBuffer_frame (JArrayBuffer iid) w7) as (v8 & w8 & Hz8 & Hf8).
  rewrite (bind_run _ _ _ _ _ Hz8).
  destruct (zeroBuffer_frame (JArrayBuffer did) w8) as (v9 & w9 & Hz9 & Hf9).
  rewrite (bind_run _ _ _ _ _ Hz9).
  exists w9. split; [reflexivity|].
  eapply frame_trans; [exact Hframe5|]. eapply frame_trans; [apply Hg6|].
  eapply frame_trans; [exact Hf7|]. eapply frame_trans; [exact Hf8 | exact Hf9].
Qed.


Lemma envelope_fields_app (salt iv sealed : list byte) :
  length salt = 16%nat -> length iv = 12%nat ->
  envelope_fields (salt ++ iv ++ sealed) = (salt, iv, sealed).
Proof.
  intros Hs Hi. unfold envelope_fields.
  rewrite (take_app_length' salt) by done.
  rewrite (drop_app_length' salt) by done.
  rewrite (take_app_length' iv) by done.
  replace 28%nat with (length salt + 12)%nat by lia.
  rewrite drop_app_add, (drop_app_length' iv) by done. done.
Qed.

(** Reading an envelope the encryption wrote. *)
Lemma open_envelope_of (salt iv sealed : list byte) (password : jsstring) :
  length salt = 16%nat -> length iv = 12%nat ->
  open_envelope (envelope_of salt iv sealed) password
  = match password with
    | [] => Throw decryption_failed
    | _ =>
        match subtle_deriveKey hash iterations (str "AES") keySize
                (TextEncoder_encode password) salt with
        | Throw _ => Throw decryption_failed
        | Return key =>
            match subtle_decrypt algorithm iv key sealed with
            | Throw _ => Throw decryption_failed
            | Return opened => Return (TextDecoder_decode opened)
            end
        end
    end.
Proof.
  intros Hs Hi. unfold open_envelope, envelope_of.
  rewrite (atob_encode _ (bytes_are_bytes _)), map_byte_of_to_Z.
  by rewrite (envelope_fields_app _ _ _ Hs Hi).
Qed.

End DecryptionFacts.

(** ** Text that survives the UTF-8 round trip *)







(** ** Claims about the encryption module *)

Section EncryptionClaims.
Context {H : Host}.
Import EncryptionManager.

(** When [encrypt] returns, the platform derived a key and sealed the
    payload, and the envelope is made of the bytes drawn and the sealed
    data. *)
Lemma encrypt_returns_inv (data : jsval) (password : jsstring) (w w1 : World)
    (envelope : jsstring) :
  data_exists w data ->
  encrypt data password w = (Return envelope, w1) ->
  exists key plain sealed,
    password <> []
    /\ payload_of w data = Some plain
    /\ subtle_deriveKey hash iterations (str "AES") keySize
         (TextEncoder_encode password) (salt_drawn w) = Return key
    /\ subtle_encrypt algorithm (iv_drawn w) key plain = Return sealed
    /\ envelope = envelope_of (salt_drawn w) (iv_drawn w) sealed.
Proof.
  intros Hdata Henc.
  destruct (encrypt_spec data password w Hdata) as (w' & Hrun & _ & _).
  rewrite Henc in Hrun. injection Hrun as Hseal _. symmetry in Hseal.
  unfold seal_envelope in Hseal. fold (salt_drawn w) (iv_drawn w) in Hseal.
  destruct password as [|c password]; [done|].
  destruct (subtle_deriveKey _ _ _ _ _ _) as [key|]; [|done].
  destruct (payload_of w data) as [plain|]; [|done].
  destruct (subtle_encrypt _ _ _ _) as [sealed|] eqn:E; [|done].
  injection Hseal as <-. exists key, plain, sealed. done.
Qed.



(** C8.  An envelope [encrypt] returns is the base64 text of the 16 bytes
    of salt drawn, then the 12 bytes of nonce drawn, then what AES-GCM
    returned for the payload (ciphertext with its tag) under the key
    derived from password and salt.  [atob] gives these bytes back, the
    fixed offsets 0, 16 and 28 split them into the three fields, and the
    outcome of [decrypt] is a function of the envelope's text and the
    password alone. *)
Theorem envelope_layout (data : jsval) (password : jsstring) (w w1 : World)
    (envelope : jsstring) :
  data_exists w data ->
  encrypt data password w = (Return envelope, w1) ->
  exists key plain sealed,
    length (salt_drawn w) = 16%nat
    /\ length (iv_drawn w) = 12%nat
    /\ payload_of w data = Some plain
    /\ subtle_deriveKey hash iterations (str "AES") keySize
         (TextEncoder_encode password) (salt_drawn w) = Return key
    /\ subtle_encrypt algorithm (iv_drawn w) key plain = Return sealed
    /\ envelope = envelope_of (salt_drawn w) (iv_drawn w) sealed
    /\ atob envelope = Return (map byte_to_Z (salt_drawn w ++ iv_drawn w ++ sealed))
    /\ envelope_fields (salt_drawn w ++ iv_drawn w ++ sealed)
       = (salt_drawn w, iv_drawn w, sealed)
    /\ forall password' w2,
        fst (decrypt (JStr envelope) password' w2) = open_envelope envelope password'.
Proof.
  intros Hdata Henc.
  destruct (encrypt_returns_inv _ _ _ _ _ Hdata Henc)
    as (key & plain & sealed & Hpw & Hplain & Hkey & Hseal & ->).
  exists key, plain, sealed.
  split; [apply random_run_length|]. split; [apply random_run_length|].
  split; [done|]. split; [done|]. split; [done|]. split; [done|].
  split; [apply atob_encode, bytes_are_bytes|].
  split; [apply envelope_fields_app; apply random_run_length|].
  intros password' w2.
  by destruct (decrypt_spec (JStr (envelope_of (salt_drawn w) (iv_drawn w) sealed))
                 password' w2) as (w' & -> & _).
Qed.

(** C10.  After a call of [encrypt] on a [Uint8Array] that returned, the
    buffer under the array holds zeros only, as many as it held bytes, and
    so does the array. *)
Theorem encrypt_zeroes_caller_buffer (view : Uint8Array) (password : jsstring)
    (w w1 : World) (envelope : jsstring) :
  is_Some (heap w !! view_buffer view) ->
  encrypt (JUint8Array view) password w = (Return envelope, w1) ->
  buffer_bytes w1 (view_buffer view)
  = replicate (length (buffer_bytes w (view_buffer view))) Byte.x00
  /\ view_bytes w1 view = replicate (length (view_bytes w view)) Byte.x00.
Proof.
  intros Hbuf Henc.
  destruct (encrypt_spec (JUint8Array view) password w Hbuf) as (w' & Hrun & _ & Hzero).
  assert (Hw : w' = w1) by congruence. subst w'.
  specialize (Hzero envelope (view_buffer view)).
  rewrite Henc in Hzero. specialize (Hzero eq_refl eq_refl).
  pose proof (buffer_bytes_lookup _ _ _ Hzero) as Hbytes.
  split; [exact Hbytes|].
  unfold view_bytes. rewrite Hbytes, drop_replicate, take_replicate.
  rewrite length_take, length_drop. done.
Qed.

End EncryptionClaims.

(** ** The encryption claims on the demo host *)

Section EncryptionDemo.
Import EncryptionManager.





Lemma envelope_layout_witness :
  exists envelope w1 sealed,
    encrypt (H := Demo.host) (JStr (str "secret")) (str "pw") Demo.world
    = (Return envelope, w1)
    /\ envelope = envelope_of (salt_drawn Demo.world) (iv_drawn Demo.world) sealed
    /\ envelope_fields (salt_drawn Demo.world ++ iv_drawn Demo.world ++ sealed)
       = (salt_drawn Demo.world, iv_drawn Demo.world, sealed).
Proof.
  destruct (encrypt (H := Demo.host) (JStr (str "secret")) (str "pw") Demo.world)
    as [[envelope|e] w1] eqn:Henc; [|vm_compute in Henc; discriminate].
  destruct (envelope_layout (H := Demo.host) (JStr (str "secret")) (str "pw")
              Demo.world w1 envelope I Henc)
    as (key & plain & sealed & _ & _ & _ & _ & _ & Henv & _ & Hfields & _).
  exists envelope, w1, sealed. done.
Defined.

Lemma encrypt_zeroes_caller_buffer_witness :
  exists envelope w1,
    encrypt (H := Demo.host) (JUint8Array Demo.payload_view) (str "pw")
      Demo.buffer_world = (Return envelope, w1)
    /\ view_bytes Demo.buffer_world Demo.payload_view = [Byte.xff; Byte.x68; Byte.x69]
    /\ view_bytes w1 Demo.payload_view = [Byte.x00; Byte.x00; Byte.x00].
Proof.
  destruct (encrypt (H := Demo.host) (JUint8Array Demo.payload_view) (str "pw")
              Demo.buffer_world) as [[envelope|e] w1] eqn:Henc;
    [|vm_compute in Henc; discriminate].
  exists envelope, w1. split; [reflexivity|]. split; [reflexivity|].
  destruct (encrypt_zeroes_caller_buffer (H := Demo.host) Demo.payload_view (str "pw")
              Demo.buffer_world w1 envelope) as [_ Hview].
  - eexists. reflexivity.
  - exact Henc.
  - exact Hview.
Defined.

End EncryptionDemo.

(** ** What a call leaves unchanged *)

Section Preservation.
Variable R : World -> World -> Prop.
Hypothesis R_refl : forall w, R w w.
Hypothesis R_trans : forall w1 w2 w3, R w1 w2 -> R w2 w3 -> R w1 w3.

Lemma preserves_ret {A} (a : A) : preserves R (ret a).
Proof using R_refl. intros w. apply R_refl. Qed.

Lemma preserves_throw {A} (e : exn) : preserves R (@throw A e).
Proof using R_refl. intros w. apply R_refl. Qed.

Lemma preserves_lift {A} (c : completion A) : preserves R (lift c).
Proof using R_refl. intros w. apply R_refl. Qed.

Lemma preserves_get_world : preserves R get_world.
Proof using R_refl. intros w. apply R_refl. Qed.

Lemma preserves_bind {A B} (m : M A) (k : A -> M B) :
  preserves R m -> (forall a, preserves R (k a)) -> preserves R (bind m k).
Proof using R_trans.
  intros Hm Hk w. unfold bind. specialize (Hm w).
  destruct (m w) as [[a|e] w1]; cbn [snd] in *; [|done].
  eapply R_trans; [exact Hm | apply Hk].
Qed.

Lemma preserves_try_catch {A} (m : M A) (handler : exn -> M A) :
  preserves R m -> (forall e, preserves R (handler e)) ->
  preserves R (try_catch m handler).
Proof using R_trans.
  intros Hm Hh w. unfold try_catch. specialize (Hm w).
  destruct (m w) as [[a|e] w1]; cbn [snd] in *; [done|].
  eapply R_trans; [exact Hm | apply Hh].
Qed.

Lemma preserves_for_of {A} (xs : list A) (body : A -> M unit) :
  (forall x, preserves R (body x)) -> preserves R (for_of xs body).
Proof using R_refl R_trans.
  intros Hbody. induction xs as [|x xs IH]; cbn [for_of].
  - apply preserves_ret.
  - apply preserves_bind; [apply Hbody | intros _; exact IH].
Qed.


End Preservation.


Lemma frame_trans' w1 w2 w3 : frame w1 w2 -> frame w2 w3 -> frame w1 w3.
Proof. apply frame_trans. Qed.

(** Proving that a call built from the monad's operations preserves [R]. *)
Ltac keeps_step R_refl R_trans :=
  first
    [ apply (preserves_ret _ R_refl)
    | apply (preserves_throw _ R_refl)
    | apply (preserves_lift _ R_refl)
    | apply (preserves_get_world _ R_refl)
    | apply (preserves_bind _ R_trans); [|intros ?]
    | apply (preserves_try_catch _ R_trans); [|intros ?]
    | apply (preserves_for_of _ R_refl R_trans); intros ?
    | match goal with
      | |- preserves _ (if ?b then _ else _) => destruct b
      | |- preserves _ (match ?x with _ => _ end) => destruct x
      end
    | progress cbv zeta ].


Section StorageFacts.
Context {H : Host}.
Import StorageManager.


Lemma encrypt_frame (data : jsval) (password : jsstring) (w : World) :
  data_exists w data -> frame w (snd (EncryptionManager.encrypt data password w)).
Proof.
  intros Hd. destruct (encrypt_spec data password w Hd) as (w' & -> & Hf & _). exact Hf.
Qed.





(** Reading the store changes nothing. *)
Lemma get_run (store : StoreName) (key : jsval) (w : World) :
  get store key w
  = (if valid_key key
     then Return (default JUndefined
                    (find (fun r => key_eqb (get_prop r (keyPath store)) key)
                          (records (db w) store)))
     else Throw data_error, w).
Proof. unfold get. by destruct (valid_key key). Qed.



Lemma string_compare_refl (s : jsstring) : string_compare s s = Eq.
Proof. induction s as [|c s IH]; [done|]. cbn [string_compare]. by rewrite Z.compare_refl. Qed.

Lemma key_eqb_refl (key : jsval) : valid_key key = true -> key_eqb key key = true.
Proof.
  unfold key_eqb. destruct key; try done; cbn [key_compare].
  - by rewrite Z.compare_refl.
  - by rewrite string_compare_refl.
Qed.


End StorageFacts.

(** ** The session *)

Section WalletFacts.
Context {H : Host}.
Import StorageManager Wallet.






(** [lock] always returns, and leaves the session locked and empty of
    secrets; the store is not touched. *)
Lemma lock_spec (w : World) :
  exists w',
    lock w = (Return tt, w')
    /\ db w' = db w
    /\ isLocked (session w') = true
    /\ truthy (mnemonic (session w')) = false
    /\ privateKeys (session w') = []
    /\ providers (session w') = []
    /\ autoLockTimer (session w') = None
    /\ truthy (get_prop (wallet (session w')) (str "mnemonic")) = false
    /\ get_prop (wallet (session w')) (str "addresses")
       = get_prop (wallet (session w)) (str "addresses").
Proof.
  unfold lock, clearSensitiveData, update, bind, get_world, modify, ret.
  destruct w as [rb ru rs su nw hp d [wal mn pk ch pr il tm ev]].
  cbn [session set_session mnemonic set_mnemonic wallet set_wallet privateKeys
       set_privateKeys providers set_providers isLocked set_isLocked autoLockTimer
       set_autoLockTimer db].
  assert (Hset : forall fields,
             truthy (get_prop (JObj (set_field (str "mnemonic") JNull fields))
                       (str "mnemonic")) = false
             /\ get_prop (JObj (set_field (str "mnemonic") JNull fields)) (str "addresses")
                = get_prop (JObj fields) (str "addresses")).
  { intros fields. cbn [get_prop]. induction fields as [|[k v] fields [IH1 IH2]].
    - split; reflexivity.
    - cbn [set_field]. destruct (string_eqb k (str "mnemonic")) eqn:E.
      + cbn [assoc]. unfold string_eqb in E. apply bool_decide_eq_true_1 in E. subst k.
        split; reflexivity.
      + cbn [assoc]. rewrite E. destruct (string_eqb k (str "addresses")); [done|].
        split; assumption. }
  destruct (truthy mn) eqn:Hmn;
    cbn [session set_session mnemonic set_mnemonic wallet set_wallet privateKeys
         set_privateKeys providers set_providers isLocked set_isLocked autoLockTimer
         set_autoLockTimer db];
    destruct (truthy wal && truthy (get_prop wal (str "mnemonic"))) eqn:Hw;
    cbn [session set_session mnemonic set_mnemonic wallet set_wallet privateKeys
         set_privateKeys providers set_providers isLocked set_isLocked autoLockTimer
         set_autoLockTimer db];
    destruct tm;
    cbn [session set_session mnemonic set_mnemonic wallet set_wallet privateKeys
         set_privateKeys providers set_providers isLocked set_isLocked autoLockTimer
         set_autoLockTimer db];
    eexists; (split; [reflexivity|]);
    cbn [session set_session mnemonic set_mnemonic wallet set_wallet privateKeys
         set_privateKeys providers set_providers isLocked set_isLocked autoLockTimer
         set_autoLockTimer db truthy];
    repeat (split; [first [reflexivity | assumption]|]);
    try (destruct wal; cbn [set_prop]; try (split; reflexivity); apply Hset);
    try (split; [|reflexivity]; apply andb_false_iff in Hw as [Hw|Hw];
         [destruct wal; try reflexivity; done | exact Hw]).
Qed.










End WalletFacts.

(** ** What the cipher engine and the store leave unchanged *)

Section FrameFacts.
Context {H : Host}.
Import SecurityConfig EncryptionManager.








End FrameFacts.

(** ** Records without a plaintext phrase *)





Section CleanStore.
Context {H : Host}.
Import StorageManager.









Lemma Date_now_run (w : World) : Date_now w = (Return (JNum (now w)), w).
Proof. reflexivity. Qed.








End CleanStore.

(** ** [saveWallet] and [importWallet] step by step *)

Section ImportFacts.
Context {H : Host}.
Import StorageManager.

Lemma try_catch_rethrow {A} (m : M A) (w : World) :
  try_catch m (fun error => throw error) w = m w.
Proof. unfold try_catch. by destruct (m w) as [[a|e] w1]. Qed.

Lemma assoc_set_field (k : jsstring) (v : jsval) (fields : list (jsstring * jsval)) :
  assoc k (set_field k v fields) = Some v.
Proof.
  induction fields as [|[k' v'] fields IH]; cbn [set_field assoc].
  - unfold string_eqb. by rewrite bool_decide_eq_true_2.
  - destruct (string_eqb k' k) eqn:E; cbn [assoc].
    + unfold string_eqb. by rewrite bool_decide_eq_true_2.
    + by rewrite E.
Qed.

(** When [saveWallet] returns for a wallet whose phrase is a string: the
    record written, the envelope in it, and the caller's object. *)
Lemma saveWallet_returns (walletData : jsval) (phrase password : jsstring)
    (w w' : World) (id walletData' : jsval) :
  get_prop walletData (str "mnemonic") = JStr phrase ->
  saveWallet walletData password w = (Return (id, walletData'), w') ->
  exists envelope record,
    EncryptionManager.seal_envelope
      (EncryptionManager.random_run w (random_used w) 16)
      (EncryptionManager.random_run w (random_used w + 16) 12)
      (Some (TextEncoder_encode phrase)) password = Return envelope
    /\ record
       = JObj [(str "id", id);
               (str "name",
                js_or_else (get_prop walletData (str "name")) (JStr (str "Eterna Wallet")));
               (str "encryptedMnemonic", JStr envelope);
               (str "addresses", get_prop walletData (str "addresses"));
               (str "createdAt", JNum (now w));
               (str "updatedAt", JNum (now w));
               (str "version", AppConfig_version)]
    /\ db w' = set_records Wallets (put_record (str "id") id record (wallets (db w))) (db w)
    /\ session w' = session w
    /\ walletData' = set_prop walletData (str "mnemonic") JNull
    /\ get_prop walletData' (str "mnemonic") = JNull.
Proof.
  intros Hphrase Hsave.
  destruct walletData as [| | | | | |fields| |]; try discriminate Hphrase.
  unfold saveWallet in Hsave. rewrite try_catch_rethrow in Hsave.
  apply bind_returns in Hsave as (id0 & wa & Hid0 & Hsave).
  injection Hid0 as <- <-.
  apply bind_returns in Hsave as (id1 & w0 & Hid & Hsave).
  assert (Hw0 : random_bytes w0 = random_bytes w /\ random_used w0 = random_used w
                /\ db w0 = db w /\ session w0 = session w /\ now w0 = now w).
  { unfold or_else in Hid. destruct (truthy _); by injection Hid as _ <-. }
  destruct Hw0 as (Hrb & Hru & Hdb0 & Hs0 & Hn0).
  apply bind_returns in Hsave as (name0 & wb & Hname0 & Hsave).
  injection Hname0 as <- <-.
  apply bind_returns in Hsave as (name & wc & Hname & Hsave).
  assert (Hname' : name = js_or_else (get_prop (JObj fields) (str "name"))
                            (JStr (str "Eterna Wallet")) /\ wc = w0).
  { unfold or_else, ret in Hname. unfold js_or_else.
    match type of Hname with
    | context [truthy ?x] =>
        change (get_prop (JObj fields) (str "name")) with x; destruct (truthy x)
    end; by injection Hname as <- <-. }
  destruct Hname' as [-> ->]. clear Hname.
  apply bind_returns in Hsave as (ph & wd & Hph & Hsave).
  assert (ph = JStr phrase /\ wd = w0) as [-> ->].
  { injection Hph as <- <-. split; [exact Hphrase | reflexivity]. }
  clear Hph.
  apply bind_returns in Hsave as (envelope & w1 & Henc & Hsave).
  destruct (encrypt_spec (JStr phrase) password w0 I) as (w1' & Henc' & Hf1 & _).
  rewrite Henc in Henc'. injection Henc' as Hseal <-.
  apply bind_returns in Hsave as (addresses & we & Haddr & Hsave).
  injection Haddr as <- <-.
  apply bind_returns in Hsave as (createdAt & wf & Hc & Hsave).
  rewrite Date_now_run in Hc. injection Hc as <- <-.
  apply bind_returns in Hsave as (updatedAt & wg & Hu & Hsave).
  rewrite Date_now_run in Hu. injection Hu as <- <-.
  apply bind_returns in Hsave as (key & w2 & Hput & Hsave).
  injection Hsave as <- <- <-.
  change (get_prop (JObj ((str "id", id1) :: _)) (str "id")) with id1.
  unfold put in Hput.
  change (get_prop (JObj ((str "id", id1) :: _)) (keyPath Wallets)) with id1 in Hput.
  destruct (valid_key id1); cbn [negb] in Hput; [|discriminate Hput].
  unfold bind, modify, ret in Hput. injection Hput as _ <-.
  destruct Hf1 as [Hdb1 Hs1 Hn1 _ _ _].
  eexists envelope, _. split; [|split; [reflexivity|]].
  { rewrite Hseal. unfold EncryptionManager.random_run. by rewrite Hrb, Hru. }
  destruct w1; simpl in *. rewrite Hn1, Hn0, Hdb1, Hdb0, Hs1, Hs0.
  repeat split. by rewrite assoc_set_field.
Qed.







End ImportFacts.

(** ** The claims about the seed, the store and the session *)

Section SeedClaim.
Context {H : Host} {L : HostLaws H}.
Import MnemonicManager.

(** C7.  [mnemonicToSeed] is PBKDF2 with HMAC-SHA-512 and 2048 iterations
    over the UTF-8 bytes of the NFKD form of the phrase, salted with the
    UTF-8 bytes of "mnemonic" followed by the NFKD form of the passphrase,
    asked for 512 bits; the seed has exactly 64 bytes; and it depends on its
    arguments only: two calls with the same arguments, or with arguments
    that have the same NFKD forms, give the same bytes. *)
Theorem mnemonicToSeed_spec (phrase passphrase : jsstring) :
  mnemonicToSeed phrase passphrase
  = subtle_deriveBits (str "SHA-512") 2048
      (TextEncoder_encode (normalize_NFKD phrase))
      (TextEncoder_encode (str "mnemonic" ++ normalize_NFKD passphrase)) 512
  /\ length (mnemonicToSeed phrase passphrase) = 64%nat
  /\ forall phrase' passphrase',
       normalize_NFKD phrase' = normalize_NFKD phrase ->
       normalize_NFKD passphrase' = normalize_NFKD passphrase ->
       mnemonicToSeed phrase' passphrase' = mnemonicToSeed phrase passphrase.
Proof.
  split; [reflexivity|]. split.
  - unfold mnemonicToSeed.
    pose proof (deriveBits_length (str "SHA-512") 2048
                  (TextEncoder_encode (normalizeString phrase))
                  (TextEncoder_encode (str "mnemonic" ++ normalizeString passphrase))
                  512 ltac:(lia) eq_refl) as Hlen.
    change (512 / 8) with 64 in Hlen. cbv zeta. lia.
  - intros phrase' passphrase' Hp Hs. unfold mnemonicToSeed, normalizeString.
    by rewrite Hp, Hs.
Qed.

End SeedClaim.

Section StoreClaims.
Context {H : Host}.
Import StorageManager Wallet.



End StoreClaims.

(** ** The claims about the seed, the store and the session on the demo host *)

Section StoreDemo.
Import StorageManager Wallet.

Lemma mnemonicToSeed_spec_witness :
  length (MnemonicManager.mnemonicToSeed (H := Demo.host) Demo.phrase []) = 64%nat.
Proof.
  destruct (mnemonicToSeed_spec (H := Demo.host) (L := demo_host_laws) Demo.phrase [])
    as (_ & Hlen & _).
  exact Hlen.
Defined.






End StoreDemo.

(** * Further properties of the code *)

(** ** Bits and numbers in the mnemonic module *)

Section BitFacts.
Import MnemonicManager.

Lemma in_range_seq (n : nat) (z : Z) :
  0 <= z < Z.of_nat n -> In z (map Z.of_nat (seq 0 n)).
Proof.
  intros Hz. replace z with (Z.of_nat (Z.to_nat z)) by lia.
  apply in_map, in_seq. lia.
Qed.

(** [byteToBits] gives the eight bits of a byte, most significant first,
    and [bitsToNumber] puts them together again. *)
Theorem bitsToNumber_byteToBits (b : Z) :
  0 <= b < 256 ->
  length (byteToBits b) = 8%nat
  /\ Forall (fun bit => bit = 0 \/ bit = 1) (byteToBits b)
  /\ bitsToNumber (byteToBits b) = b.
Proof.
  intros Hb. split; [reflexivity|].
  assert (Hall : forallb (fun b => (bitsToNumber (byteToBits b) =? b)
                                   && forallb (fun bit => (bit =? 0) || (bit =? 1))
                                        (byteToBits b))
                   (map Z.of_nat (seq 0 256)) = true) by (vm_compute; reflexivity).
  rewrite forallb_forall in Hall.
  specialize (Hall b (in_range_seq 256 b Hb)).
  apply andb_true_iff in Hall as [Hnum Hbits]. split; [|lia].
  apply List.Forall_forall. intros bit Hin. rewrite forallb_forall in Hbits.
  specialize (Hbits bit Hin). lia.
Qed.

Lemma bitsToNumber_byteToBits_witness :
  bitsToNumber (byteToBits 200) = 200.
Proof. apply (bitsToNumber_byteToBits 200). lia. Defined.

(** The eleven bits [mnemonicToEntropy] writes for a word index are the
    index again under [bitsToNumber], for every index of a 2048-word
    list. *)
Theorem bitsToNumber_numberToBits (n : Z) :
  0 <= n < 2048 ->
  length (numberToBits n 11) = 11%nat
  /\ bitsToNumber (numberToBits n 11) = n.
Proof.
  intros Hn. split; [apply numberToBits_length|].
  assert (Hall : forallb (fun n => bitsToNumber (numberToBits n 11) =? n)
                   (map Z.of_nat (seq 0 2048)) = true) by (vm_compute; reflexivity).
  rewrite forallb_forall in Hall.
  specialize (Hall n (in_range_seq 2048 n Hn)). lia.
Qed.

Lemma bitsToNumber_numberToBits_witness :
  bitsToNumber (numberToBits 2047 11) = 2047.
Proof. apply (bitsToNumber_numberToBits 2047). lia. Defined.

End BitFacts.

(** ** The store: what is written can be read *)

Section StoreRoundTrips.
Context {H : Host}.
Import StorageManager.

Lemma string_compare_Eq (a b : jsstring) : string_compare a b = Eq -> a = b.
Proof.
  revert b. induction a as [|x a IH]; intros [|y b]; cbn [string_compare]; try done.
  destruct (x ?= y) eqn:E; try done.
  apply Z.compare_eq in E. intros Hab. by rewrite E, (IH b Hab).
Qed.

Lemma key_compare_Eq (a b : jsval) :
  valid_key b = true -> key_eqb a b = true -> valid_key a = true -> a = b.
Proof.
  unfold key_eqb. destruct a, b; try done; cbn [key_compare].
  - destruct (n ?= n0) eqn:E; try done. by apply Z.compare_eq in E as ->.
  - destruct (string_compare s s0) eqn:E; try done. by apply string_compare_Eq in E as ->.
Qed.

Lemma string_compare_antisym (a b : jsstring) :
  string_compare b a = CompOpp (string_compare a b).
Proof.
  revert b. induction a as [|x a IH]; intros [|y b]; cbn [string_compare]; try done.
  rewrite (Z.compare_antisym x y). destruct (x ?= y); cbn [CompOpp]; [apply IH | done | done].
Qed.

(** A record before which [put_record] walks does not have the key. *)
Lemma key_compare_Gt (key other : jsval) :
  valid_key key = true -> key_compare key other = Gt -> key_eqb other key = false.
Proof.
  unfold key_eqb. destruct key, other; try done; cbn [key_compare].
  - rewrite (Z.compare_antisym n n0). by intros _ ->.
  - rewrite (string_compare_antisym s s0). by intros _ ->.
Qed.

Lemma find_put_record (path : jsstring) (key record : jsval) (rs : list jsval) :
  valid_key key = true ->
  get_prop record path = key ->
  find (fun r => key_eqb (get_prop r path) key) (put_record path key record rs)
  = Some record.
Proof.
  intros Hkey Hrec. induction rs as [|r rs IH]; cbn [put_record find].
  - by rewrite Hrec, key_eqb_refl.
  - destruct (key_compare key (get_prop r path)) eqn:E; cbn [find].
    + by rewrite Hrec, key_eqb_refl.
    + by rewrite Hrec, key_eqb_refl.
    + by rewrite (key_compare_Gt _ _ Hkey E).
Qed.

Lemma records_set_records (store : StoreName) (rs : list jsval) (d : Database) :
  records (set_records store rs d) store = rs.
Proof. by destruct store. Qed.

Lemma records_set_records_ne (store other : StoreName) (rs : list jsval) (d : Database) :
  other <> store -> records (set_records store rs d) other = records d other.
Proof. by destruct store, other. Qed.

Lemma put_returns (store : StoreName) (data key : jsval) (w w1 : World) :
  put store data w = (Return key, w1) ->
  key = get_prop data (keyPath store)
  /\ valid_key key = true
  /\ w1 = set_db (set_records store
                    (put_record (keyPath store) key data (records (db w) store))
                    (db w)) w.
Proof.
  unfold put. destruct (valid_key (get_prop data (keyPath store))) eqn:Hkey;
    cbn [negb]; [|done].
  unfold bind, modify, ret. by intros [= <- <-].
Qed.

(** [put] then [get], in the form the proofs below use. *)
Lemma put_get (store : StoreName) (data key : jsval) (w w1 : World) :
  put store data w = (Return key, w1) ->
  key = get_prop data (keyPath store)
  /\ get store key w1 = (Return data, w1)
  /\ (forall other, other <> store -> records (db w1) other = records (db w) other)
  /\ session w1 = session w.
Proof.
  intros Hput. destruct (put_returns _ _ _ _ _ Hput) as (Hkey & Hvalid & ->).
  split; [exact Hkey|]. split; [|split].
  - rewrite get_run, Hvalid. destruct w; simpl.
    rewrite records_set_records, find_put_record; done.
  - intros other Hne. destruct w; simpl. by apply records_set_records_ne.
  - by destruct w.
Qed.

(** [put] then [get]: the record written is the one read under its key;
    the other stores and the session are as before. *)
Theorem put_then_get (store : StoreName) (data key : jsval) (w w1 : World) :
  put store data w = (Return key, w1) ->
  key = get_prop data (keyPath store)
  /\ get store key w1 = (Return data, w1)
  /\ (forall other, other <> store -> records (db w1) other = records (db w) other)
  /\ session w1 = session w.
Proof. apply put_get. Qed.

Lemma find_filter_out (path : jsstring) (key : jsval) (rs : list jsval) :
  find (fun r => key_eqb (get_prop r path) key)
       (List.filter (fun r => negb (key_eqb (get_prop r path) key)) rs) = None.
Proof.
  induction rs as [|r rs IH]; cbn [List.filter find]; [done|].
  destruct (key_eqb (get_prop r path) key) eqn:E; cbn [negb find]; [exact IH|].
  by rewrite E.
Qed.

(** [delete] then [get], in the form the proofs below use. *)
Lemma delete_get (store : StoreName) (key : jsval) (w w1 : World) :
  delete store key w = (Return tt, w1) ->
  get store key w1 = (Return JUndefined, w1)
  /\ (forall other, other <> store -> records (db w1) other = records (db w) other).
Proof.
  unfold delete. destruct (valid_key key) eqn:Hvalid; cbn [negb]; [|done].
  unfold modify. intros [= <-]. split.
  - rewrite get_run, Hvalid. destruct w; simpl. rewrite records_set_records.
    by rewrite find_filter_out.
  - intros other Hne. destruct w; simpl. by apply records_set_records_ne.
Qed.

(** [delete] then [get]: nothing is left under the key. *)
Theorem delete_then_get (store : StoreName) (key : jsval) (w w1 : World) :
  delete store key w = (Return tt, w1) ->
  get store key w1 = (Return JUndefined, w1)
  /\ (forall other, other <> store -> records (db w1) other = records (db w) other).
Proof. apply delete_get. Qed.

(** A setting saved is the setting loaded, in the form the proofs below use. *)
Lemma saveSetting_loadSetting (key value defaultValue : jsval) (w w1 : World) :
  saveSetting key value w = (Return tt, w1) ->
  loadSetting key defaultValue w1 = (Return value, w1).
Proof.
  unfold saveSetting. rewrite try_catch_rethrow. intros Hsave.
  apply bind_returns in Hsave as (k & w' & Hput & [= <-]).
  destruct (put_get _ _ _ _ _ Hput) as (Hk & Hget & _).
  change (get_prop _ (keyPath Settings)) with key in Hk. subst k.
  unfold loadSetting, try_catch. by rewrite (bind_run _ _ _ _ _ Hget).
Qed.

(** [saveSetting] then [loadSetting]: the value saved, whatever the
    default. *)
Theorem saveSetting_then_loadSetting (key value defaultValue : jsval) (w w1 : World) :
  saveSetting key value w = (Return tt, w1) ->
  loadSetting key defaultValue w1 = (Return value, w1).
Proof. apply saveSetting_loadSetting. Qed.

(** [saveToken] then [removeToken] of the address as the caller wrote it:
    the token is stored under the lower-case address, and is gone
    afterwards. *)
Theorem saveToken_then_removeToken (tokenData address : jsval) (w w1 : World) :
  saveToken tokenData w = (Return address, w1) ->
  toLowerCase (get_prop tokenData (str "address")) = Return address
  /\ (exists token,
        get Tokens address w1 = (Return token, w1)
        /\ get_prop token (str "address") = address
        /\ get_prop token (str "symbol") = get_prop tokenData (str "symbol"))
  /\ exists w2,
      removeToken (get_prop tokenData (str "address")) w1 = (Return tt, w2)
      /\ get Tokens address w2 = (Return JUndefined, w2).
Proof.
  unfold saveToken. rewrite try_catch_rethrow. intros Hsave.
  apply bind_returns in Hsave as (address0 & wa & Ha0 & Hsave).
  assert (address0 = get_prop tokenData (str "address") /\ wa = w) as [-> ->].
  { unfold lift, get_member in Ha0. destruct tokenData; first [done | by injection Ha0 as <- <-]. }
  apply bind_returns in Hsave as (lower & wb & Hlower & Hsave).
  unfold lift in Hlower. injection Hlower as Hlower <-.
  apply bind_returns in Hsave as (addedAt & wc & Hnow & Hsave).
  rewrite Date_now_run in Hnow. injection Hnow as <- <-.
  apply bind_returns in Hsave as (key & wd & Hput & Hsave).
  unfold ret in Hsave. injection Hsave as Haddr ->.
  change (get_prop (JObj ((str "address", lower) :: _)) (str "address")) with lower in Haddr.
  subst lower.
  destruct (put_get _ _ _ _ _ Hput) as (Hkey & Hget & _).
  change (get_prop (JObj ((str "address", address) :: _)) (keyPath Tokens))
    with address in Hkey.
  subst key. split; [exact Hlower|]. split.
  - eexists. split; [exact Hget|]. split; reflexivity.
  - unfold removeToken. rewrite try_catch_rethrow.
    unfold bind at 1, lift. rewrite Hlower.
    destruct (delete Tokens address w1) as [[[]|e] w2] eqn:Hdel.
    + exists w2. split; [reflexivity|]. by apply (delete_get _ _ _ _ Hdel).
    + destruct (put_returns _ _ _ _ _ Hput) as (_ & Hvalid & _).
      unfold delete in Hdel. rewrite Hvalid in Hdel. done.
Qed.


(** [walletExists] never throws: it tells whether the wallet store holds a
    record. *)
Lemma walletExists_spec (w : World) :
  walletExists w = (Return (bool_decide (wallets (db w) <> [])), w).
Proof.
  unfold walletExists, try_catch, count, bind, get_world, ret. cbn [records].
  destruct (wallets (db w)) as [|r rs]; [done|].
  rewrite bool_decide_eq_true_2 by done. reflexivity.
Qed.

(** [loadWallet] of an id under which nothing is stored throws "Wallet not
    found" and changes nothing. *)
Theorem loadWallet_unknown (walletId : jsval) (password : jsstring) (w : World) :
  valid_key walletId = true ->
  Forall (fun r => key_eqb (get_prop r (str "id")) walletId = false) (wallets (db w)) ->
  loadWallet walletId password w = (Throw (Error (str "Wallet not found")), w).
Proof.
  intros Hvalid Hnone. unfold loadWallet. rewrite try_catch_rethrow.
  unfold bind at 1. rewrite get_run, Hvalid. cbn [records].
  change (keyPath Wallets) with (str "id").
  assert (find (fun r => key_eqb (get_prop r (str "id")) walletId) (wallets (db w)) = None)
    as ->; [|done].
  induction Hnone as [|r rs Hr _ IH]; cbn [find]; [done|]. by rewrite Hr.
Qed.

End StoreRoundTrips.

Lemma put_then_get_witness :
  StorageManager.get StorageManager.Wallets (JStr (str "w3"))
    (snd (StorageManager.put StorageManager.Wallets (Demo.stored_wallet "w3" "bc1qnew")
            Demo.world))
  = (Return (Demo.stored_wallet "w3" "bc1qnew"),
     snd (StorageManager.put StorageManager.Wallets (Demo.stored_wallet "w3" "bc1qnew")
            Demo.world)).
Proof.
  destruct (StorageManager.put StorageManager.Wallets (Demo.stored_wallet "w3" "bc1qnew")
              Demo.world) as [[key|e] w1] eqn:Hput; [|vm_compute in Hput; discriminate Hput].
  assert (Hkey : key = JStr (str "w3")).
  { vm_compute in Hput. by injection Hput as <- _. }
  destruct (put_then_get _ _ _ _ _ Hput) as (_ & Hget & _).
  cbn [snd]. rewrite <- Hkey. exact Hget.
Defined.

Lemma delete_then_get_witness :
  StorageManager.get StorageManager.Wallets (JStr (str "w1"))
    (snd (StorageManager.delete StorageManager.Wallets (JStr (str "w1")) Demo.world))
  = (Return JUndefined,
     snd (StorageManager.delete StorageManager.Wallets (JStr (str "w1")) Demo.world)).
Proof.
  destruct (StorageManager.delete StorageManager.Wallets (JStr (str "w1")) Demo.world)
    as [[[]|e] w1] eqn:Hdel; [|vm_compute in Hdel; discriminate Hdel].
  by destruct (delete_then_get _ _ _ _ Hdel) as (Hget & _).
Defined.

Lemma saveSetting_then_loadSetting_witness :
  StorageManager.loadSetting (JStr (str "autoLockDelay")) (JNum 300)
    (snd (StorageManager.saveSetting (JStr (str "autoLockDelay")) (JNum 60)
            Demo.world))
  = (Return (JNum 60),
     snd (StorageManager.saveSetting (JStr (str "autoLockDelay")) (JNum 60)
            Demo.world)).
Proof.
  destruct (StorageManager.saveSetting (JStr (str "autoLockDelay"))
              (JNum 60) Demo.world) as [[[]|e] w1] eqn:Hsave;
    [|vm_compute in Hsave; discriminate Hsave].
  exact (saveSetting_then_loadSetting _ _ (JNum 300) _ _ Hsave).
Defined.

Lemma saveToken_then_removeToken_witness :
  exists address w1 w2,
    StorageManager.saveToken (H := Demo.host)
      (JObj [(str "address", JStr (str "0xAbC")); (str "symbol", JStr (str "TKN"))])
      Demo.world = (Return address, w1)
    /\ address = JStr (str "0xabc")
    /\ StorageManager.removeToken (H := Demo.host) (JStr (str "0xAbC")) w1 = (Return tt, w2)
    /\ StorageManager.get StorageManager.Tokens address w2 = (Return JUndefined, w2).
Proof.
  destruct (StorageManager.saveToken (H := Demo.host)
              (JObj [(str "address", JStr (str "0xAbC")); (str "symbol", JStr (str "TKN"))])
              Demo.world) as [[address|e] w1] eqn:Hsave;
    [|vm_compute in Hsave; discriminate Hsave].
  destruct (saveToken_then_removeToken _ _ _ _ Hsave) as (Hlower & _ & w2 & Hrm & Hget).
  exists address, w1, w2. split; [reflexivity|]. split.
  - vm_compute in Hlower. by injection Hlower as <-.
  - split; [exact Hrm | exact Hget].
Defined.

Lemma loadWallet_unknown_witness :
  StorageManager.loadWallet (H := Demo.host) (JStr (str "w9")) (str "pw") Demo.world
  = (Throw (Error (str "Wallet not found")), Demo.world).
Proof.
  apply (loadWallet_unknown (H := Demo.host)); [reflexivity|].
  vm_compute. repeat constructor.
Defined.

(** ** From [saveWallet] to an unlocked session *)

Section WalletRoundTrip.
Context {H : Host} {L : HostLaws H}.
Import StorageManager Wallet.

Lemma saveWallet_valid_key (walletData : jsval) (password : jsstring) (w w' : World)
    (id walletData' : jsval) :
  saveWallet walletData password w = (Return (id, walletData'), w') ->
  valid_key id = true.
Proof using Type.
  unfold saveWallet. rewrite try_catch_rethrow. intros Hsave.
  apply bind_returns in Hsave as (id0 & wa & _ & Hsave).
  apply bind_returns in Hsave as (id1 & wb & _ & Hsave).
  apply bind_returns in Hsave as (name0 & wc & _ & Hsave).
  apply bind_returns in Hsave as (name & wd & _ & Hsave).
  apply bind_returns in Hsave as (ph & we & _ & Hsave).
  apply bind_returns in Hsave as (envelope & wf & _ & Hsave).
  apply bind_returns in Hsave as (addresses & wg & _ & Hsave).
  apply bind_returns in Hsave as (createdAt & wh & _ & Hsave).
  apply bind_returns in Hsave as (updatedAt & wi & _ & Hsave).
  apply bind_returns in Hsave as (key & wj & Hput & Hsave).
  injection Hsave as <- _ _.
  destruct (put_returns _ _ _ _ _ Hput) as (-> & Hvalid & _). exact Hvalid.
Qed.

(** What [seal_envelope] returned, [open_envelope] opens under the same
    password. *)
Lemma open_sealed (salt iv plain : list byte) (password envelope : jsstring) :
  length salt = 16%nat -> length iv = 12%nat ->
  EncryptionManager.seal_envelope salt iv (Some plain) password = Return envelope ->
  EncryptionManager.open_envelope envelope password = Return (TextDecoder_decode plain).
Proof using L.
  intros Hs Hi. unfold EncryptionManager.seal_envelope.
  destruct password as [|c password]; [done|].
  destruct (subtle_deriveKey _ _ _ _ _ _) as [key|] eqn:Hkey; [|done].
  destruct (subtle_encrypt _ _ _ _) as [sealed|] eqn:Hseal; [|done].
  intros [= <-]. rewrite open_envelope_of by done.
  by rewrite Hkey, (decrypt_encrypt _ _ _ _ _ Hseal).
Qed.

(** [saveWallet] then [loadWallet], in the form the proofs below use. *)
Lemma saveWallet_loadWallet (walletData : jsval) (phrase password : jsstring)
    (w w1 : World) (id walletData' : jsval) :
  get_prop walletData (str "mnemonic") = JStr phrase ->
  TextDecoder_decode (TextEncoder_encode phrase) = phrase ->
  saveWallet walletData password w = (Return (id, walletData'), w1) ->
  exists w2,
    loadWallet id password w1
    = (Return (JObj [(str "id", id);
                     (str "name",
                      js_or_else (get_prop walletData (str "name"))
                        (JStr (str "Eterna Wallet")));
                     (str "mnemonic", JStr phrase);
                     (str "addresses",
                      js_or_else (get_prop walletData (str "addresses")) (JObj []));
                     (str "createdAt", JNum (now w));
                     (str "version", AppConfig_version)]), w2)
    /\ frame w1 w2.
Proof using L.
  intros Hphrase Hround Hsave.
  pose proof (saveWallet_valid_key _ _ _ _ _ _ Hsave) as Hvalid.
  destruct (saveWallet_returns _ _ _ _ _ _ _ Hphrase Hsave)
    as (envelope & record & Hseal & Hrecord & Hdb & _ & _ & _).
  apply open_sealed in Hseal; [|apply random_run_length..].
  rewrite Hround in Hseal.
  unfold loadWallet. rewrite try_catch_rethrow.
  unfold bind at 1. rewrite get_run, Hvalid, Hdb, records_set_records.
  change (keyPath Wallets) with (str "id").
  rewrite find_put_record; [|exact Hvalid | by rewrite Hrecord].
  change (default JUndefined (Some record)) with record.
  assert (Htr : truthy record = true) by (by rewrite Hrecord).
  assert (Henv : get_prop record (str "encryptedMnemonic") = JStr envelope)
    by (by rewrite Hrecord).
  unfold ret at 1. rewrite Htr, Henv. cbn [negb].
  destruct (decrypt_spec (JStr envelope) password w1) as (w2 & Hdec & Hf).
  cbn [ToString] in Hdec. rewrite Hseal in Hdec.
  rewrite (bind_run _ _ _ _ _ Hdec).
  exists w2. split; [|exact Hf]. rewrite Hrecord. reflexivity.
Qed.

(** [saveWallet] then [loadWallet] under the same password, for a phrase
    that survives UTF-8: the wallet comes back with its phrase, its name
    and its addresses. *)
Theorem saveWallet_then_loadWallet (walletData : jsval) (phrase password : jsstring)
    (w w1 : World) (id walletData' : jsval) :
  get_prop walletData (str "mnemonic") = JStr phrase ->
  TextDecoder_decode (TextEncoder_encode phrase) = phrase ->
  saveWallet walletData password w = (Return (id, walletData'), w1) ->
  exists w2,
    loadWallet id password w1
    = (Return (JObj [(str "id", id);
                     (str "name",
                      js_or_else (get_prop walletData (str "name"))
                        (JStr (str "Eterna Wallet")));
                     (str "mnemonic", JStr phrase);
                     (str "addresses",
                      js_or_else (get_prop walletData (str "addresses")) (JObj []));
                     (str "createdAt", JNum (now w));
                     (str "version", AppConfig_version)]), w2)
    /\ frame w1 w2.
Proof using L. apply saveWallet_loadWallet. Qed.





End WalletRoundTrip.

Section WalletRoundTripDemo.
Import StorageManager Wallet.

Lemma saveWallet_then_loadWallet_witness :
  exists id walletData' w1 loaded w2,
    saveWallet (H := Demo.host) Demo.new_wallet (str "pw") Demo.empty_world
    = (Return (id, walletData'), w1)
    /\ loadWallet (H := Demo.host) id (str "pw") w1 = (Return loaded, w2)
    /\ get_prop loaded (str "mnemonic") = JStr Demo.phrase.
Proof.
  destruct (saveWallet (H := Demo.host) Demo.new_wallet (str "pw") Demo.empty_world)
    as [[[id walletData']|e] w1] eqn:Hsave; [|vm_compute in Hsave; discriminate Hsave].
  destruct (saveWallet_then_loadWallet (H := Demo.host) (L := demo_host_laws)
              Demo.new_wallet Demo.phrase (str "pw") Demo.empty_world w1 id walletData')
    as (w2 & Hload & _).
  - vm_compute. reflexivity.
  - vm_compute. reflexivity.
  - exact Hsave.
  - eexists id, walletData', w1, _, w2. split; [reflexivity|]. split; [exact Hload|].
    reflexivity.
Defined.


End WalletRoundTripDemo.

(** ** The session: keys, timers and clearing *)

Section SessionFacts.
Context {H : Host}.
Import StorageManager Wallet.

(** [lock] twice is [lock] once. *)
Theorem lock_idempotent (w w1 : World) :
  lock w = (Return tt, w1) -> lock w1 = (Return tt, w1).
Proof.
  intros Hlock.
  destruct (lock_spec w) as (w' & Hlock' & _ & Hl & Hm & Hk & Hp & Ht & Hwm & _).
  assert (w' = w1) by congruence. subst w'. clear Hlock Hlock'.
  destruct w1 as [rb ru rs su nw hp d [wal mn pk ch pr il tm ev]]. simpl in *. subst.
  unfold lock, clearSensitiveData, update, bind, get_world, modify, ret. simpl.
  rewrite Hm. simpl. rewrite Hwm, andb_false_r. reflexivity.
Qed.

(** The 30 s timeout of a cached key removes that key and no other. *)
Lemma eviction_removes_key (chain : jsstring) (w : World) :
  exists w1,
    onEvictionTimeout chain w = (Return tt, w1)
    /\ map_get chain (privateKeys (session w1)) = None
    /\ (forall other,
          other <> chain ->
          map_get other (privateKeys (session w1))
          = map_get other (privateKeys (session w)))
    /\ isLocked (session w1) = isLocked (session w)
    /\ db w1 = db w.
Proof.
  eexists. split; [reflexivity|].
  destruct w as [rb ru rs su nw hp d [wal mn pk ch pr il tm ev]]. simpl.
  split; [|split; [|done]].
  - unfold map_delete. induction pk as [|[k v] pk IH]; cbn [List.filter map_get]; [done|].
    cbn [fst]. destruct (string_eqb k chain) eqn:E; cbn [negb map_get]; [exact IH|].
    by rewrite E.
  - intros other Hne. unfold map_delete.
    induction pk as [|[k v] pk IH]; cbn [List.filter map_get]; [done|].
    cbn [fst]. destruct (string_eqb k chain) eqn:E; cbn [negb map_get].
    + rewrite IH. unfold string_eqb in E. apply bool_decide_eq_true_1 in E. subst k.
      unfold string_eqb. by rewrite bool_decide_eq_false_2 by congruence.
    + by rewrite IH.
Qed.

(** When the auto-lock timeout fires the session ends up locked; if it was
    unlocked, its phrase and keys are cleared; the store is not touched. *)
Lemma onAutoLockTimeout_locks (w : World) :
  exists w1,
    onAutoLockTimeout w = (Return tt, w1)
    /\ isLocked (session w1) = true
    /\ db w1 = db w
    /\ (isLocked (session w) = true -> w1 = w)
    /\ (isLocked (session w) = false ->
        truthy (mnemonic (session w1)) = false /\ privateKeys (session w1) = []).
Proof.
  unfold onAutoLockTimeout, bind, get_world.
  destruct (isLocked (session w)) eqn:Hl; cbn [negb].
  - exists w. by repeat split.
  - destruct (lock_spec w) as (w1 & Hlock & Hdb & Hl1 & Hm & Hk & _).
    exists w1. by repeat split.
Qed.






End SessionFacts.

Section SessionDemo.
Import StorageManager Wallet.

Lemma lock_idempotent_witness :
  lock Demo.relocked_world = (Return tt, Demo.relocked_world).
Proof. apply (lock_idempotent Demo.unlocked_world). vm_compute. reflexivity. Defined.

Lemma map_get_set {A} (k : jsstring) (v : A) (m : list (jsstring * A)) :
  map_get k (map_set k v m) = Some v.
Proof.
  induction m as [|[k' v'] m IH]; cbn [map_set map_get].
  - unfold string_eqb. by rewrite bool_decide_eq_true_2.
  - destruct (string_eqb k' k) eqn:E; cbn [map_get].
    + unfold string_eqb. by rewrite bool_decide_eq_true_2.
    + by rewrite E.
Qed.

(** A key [getPrivateKey] returned is in the cache: the next call returns
    it again and changes nothing.  The store is never touched, and a call
    that throws changes nothing at all. *)
Theorem getPrivateKey_caches (chain : jsstring) (w : World) :
  (forall key w1,
      getPrivateKey chain w = (Return key, w1) ->
      map_get chain (privateKeys (session w1)) = Some key
      /\ getPrivateKey chain w1 = (Return key, w1)
      /\ isLocked (session w1) = false
      /\ mnemonic (session w1) = mnemonic (session w)
      /\ db w1 = db w)
  /\ (forall e w1, getPrivateKey chain w = (Throw e, w1) -> w1 = w).
Proof.
  unfold getPrivateKey, bind, get_world, lift, update, modify, ret, throw.
  destruct (isLocked (session w)) eqn:Hl; cbn [orb].
  { split; [done | by intros e w1 [= _ <-]]. }
  destruct (truthy (mnemonic (session w))) eqn:Hm; cbn [negb].
  2:{ split; [done | by intros e w1 [= _ <-]]. }
  destruct (map_get chain (privateKeys (session w))) as [cached|] eqn:Hc.
  { split; [|done]. intros key w1 [= <- <-]. by rewrite Hl, Hm, Hc. }
  destruct (map_get chain (chains (session w))) as [chainManager|];
    [|split; [done | by intros e w1 [= _ <-]]].
  destruct (getPrivateKeyFromMnemonic chainManager) as [derive|];
    [|split; [done | by intros e w1 [= _ <-]]].
  destruct (derive (mnemonic (session w))) as [privateKey|e0];
    [|split; [done | by intros e w1 [= _ <-]]].
  split; [|done]. intros key w1 [= <- <-].
  destruct w as [rb ru rs su nw hp d [wal mn pk ch pr il tm ev]]. simpl in *. subst.
  rewrite Hm, map_get_set. done.
Qed.

Lemma getPrivateKey_caches_witness :
  exists key w1,
    getPrivateKey (str "ethereum") Demo.unlocked_world = (Return key, w1)
    /\ getPrivateKey (str "ethereum") w1 = (Return key, w1)
    /\ snd (getPrivateKey (str "bitcoin") Demo.unlocked_world) = Demo.unlocked_world.
Proof.
  destruct (getPrivateKey_caches (str "ethereum") Demo.unlocked_world) as [Hret _].
  destruct (getPrivateKey_caches (str "bitcoin") Demo.unlocked_world) as [_ Hthrow].
  destruct (getPrivateKey (str "ethereum") Demo.unlocked_world) as [[key|e] w1] eqn:Hkey;
    [|vm_compute in Hkey; discriminate Hkey].
  destruct (Hret key w1 eq_refl) as (_ & Hagain & _).
  exists key, w1. split; [reflexivity|]. split; [exact Hagain|].
  destruct (getPrivateKey (str "bitcoin") Demo.unlocked_world) as [[key'|e] w2] eqn:Hbtc;
    [vm_compute in Hbtc; discriminate Hbtc|].
  exact (Hthrow e w2 eq_refl).
Defined.


End SessionDemo.

(** ** The cipher engine: random bytes, wiping, base64 *)

Section CipherFacts.
Context {H : Host}.
Import SecurityConfig EncryptionManager.



(** The heap after [deriveKey], in the form the proofs below use. *)
Lemma deriveKey_heap (password : jsstring) (salt : jsval) (w w1 : World)
    (key : CryptoKey) :
  deriveKey password salt w = (Return key, w1) ->
  w1 = set_heap (heap w ++ [TextEncoder_encode password]) w
  /\ heap w1 !! length (heap w) = Some (TextEncoder_encode password).
Proof.
  unfold deriveKey. destruct (_ || _); [done|].
  unfold bind, alloc, read_view, lift, zeroBuffer, SecurityConfig.zeroBuffer, ret.
  destruct (bytes_of_source salt _) as [[saltBytes|e] w2] eqn:Hsalt; [|done].
  assert (w2 = set_heap (heap w ++ [TextEncoder_encode password]) w) as ->.
  { destruct salt; cbn [bytes_of_source] in Hsalt; try done.
    - by injection Hsalt as _ <-.
    - by injection Hsalt as _ <-. }
  destruct (subtle_deriveKey _ _ _ _ _ _); [|done].
  intros [= _ <-]. split; [done|]. destruct w; simpl. by apply list_lookup_middle.
Qed.

(** [deriveKey] copies the password into a new buffer and never wipes it:
    when it returns, the heap is the heap before with the UTF-8 bytes of
    the password appended, and all else is as before. *)
Theorem deriveKey_leaves_password (password : jsstring) (salt : jsval) (w w1 : World)
    (key : CryptoKey) :
  deriveKey password salt w = (Return key, w1) ->
  w1 = set_heap (heap w ++ [TextEncoder_encode password]) w
  /\ heap w1 !! length (heap w) = Some (TextEncoder_encode password).
Proof. apply deriveKey_heap. Qed.

(** The bytes of a buffer, written as base64 by [arrayBufferToBase64] and
    read back by [base64ToArrayBuffer], are the same bytes in a new
    buffer; the buffers that were there are as they were. *)
Theorem base64_round_trip (buffer : jsval) (bytes : list byte) (w : World) :
  holds w buffer bytes ->
  exists text id w1,
    arrayBufferToBase64 buffer w = (Return text, w)
    /\ base64ToArrayBuffer (JStr text) w = (Return id, w1)
    /\ heap w1 !! id = Some bytes
    /\ heap w !! id = None
    /\ keeps_buffers w w1.
Proof.
  intros Hb. exists (b64_encode (map byte_to_Z bytes)).
  pose proof (base64ToArrayBuffer_spec (JStr (b64_encode (map byte_to_Z bytes))) w) as Hback.
  cbn [ToString] in Hback. rewrite (atob_encode _ (bytes_are_bytes bytes)) in Hback.
  destruct Hback as (id & w1 & Hrun & Hid & Hg).
  exists id, w1. split; [by apply arrayBufferToBase64_spec|]. split; [exact Hrun|].
  rewrite map_byte_of_to_Z in Hid. split; [exact Hid|]. split; [|apply Hg].
  unfold base64ToArrayBuffer, bind, get_world, lift, alloc_buffer in Hrun.
  cbn [ToString] in Hrun. rewrite (atob_encode _ (bytes_are_bytes bytes)) in Hrun.
  injection Hrun as <- _. by apply lookup_ge_None_2.
Qed.

(** Every failure of [encrypt] is the one error "Failed to encrypt data":
    an empty password and data that is neither a string nor a buffer fail
    with it like a refusal of the platform. *)
Theorem encrypt_failure_uniform (data : jsval) (password : jsstring) (w : World) :
  (forall e, fst (encrypt data password w) = Throw e -> e = encryption_failed)
  /\ (data_exists w data -> password = [] ->
      fst (encrypt data password w) = Throw encryption_failed)
  /\ (payload_of w data = None ->
      fst (encrypt data password w) = Throw encryption_failed).
Proof.
  split; [|split].
  - unfold encrypt, try_catch. intros e.
    match goal with |- context [match ?body w with _ => _ end] =>
      destruct (body w) as [[a|e0] w1] end; [done | by intros [= <-]].
  - intros Hdata ->. destruct (encrypt_spec data [] w Hdata) as (w1 & -> & _). done.
  - intros Hnone.
    assert (Hdata : data_exists w data) by (by destruct data).
    destruct (encrypt_spec data password w Hdata) as (w1 & -> & _).
    cbn [fst]. unfold seal_envelope. rewrite Hnone.
    destruct password; [done|]. by destruct (subtle_deriveKey _ _ _ _ _ _).
Qed.

End CipherFacts.

Section CipherDemo.
Import SecurityConfig EncryptionManager.



Lemma deriveKey_leaves_password_witness :
  heap (snd (deriveKey (H := Demo.host) (str "pw") (JArrayBuffer 0) Demo.buffer_world))
  !! 1%nat = Some (TextEncoder_encode (str "pw")).
Proof.
  destruct (deriveKey (H := Demo.host) (str "pw") (JArrayBuffer 0) Demo.buffer_world)
    as [[key|e] w1] eqn:Hkey; [|vm_compute in Hkey; discriminate Hkey].
  by destruct (deriveKey_leaves_password _ _ _ _ _ Hkey) as [_ Hheap].
Defined.

Lemma base64_round_trip_witness :
  exists text id w1,
    arrayBufferToBase64 (JArrayBuffer 0) Demo.buffer_world = (Return text, Demo.buffer_world)
    /\ base64ToArrayBuffer (JStr text) Demo.buffer_world = (Return id, w1)
    /\ heap w1 !! id = Some [Byte.xff; Byte.x68; Byte.x69].
Proof.
  destruct (base64_round_trip (JArrayBuffer 0) [Byte.xff; Byte.x68; Byte.x69]
              Demo.buffer_world) as (text & id & w1 & Hto & Hfrom & Hid & _).
  - reflexivity.
  - by exists text, id, w1.
Defined.

Lemma encrypt_failure_uniform_witness :
  fst (encrypt (H := Demo.host) (JNum 7) (str "pw") Demo.world) = Throw encryption_failed
  /\ fst (encrypt (H := Demo.host) (JStr (str "secret")) [] Demo.world)
     = Throw encryption_failed.
Proof.
  split.
  - destruct (encrypt_failure_uniform (H := Demo.host) (JNum 7) (str "pw") Demo.world)
      as (_ & _ & Hnone).
    apply Hnone. reflexivity.
  - destruct (encrypt_failure_uniform (H := Demo.host) (JStr (str "secret")) [] Demo.world)
      as (_ & Hempty & _).
    apply Hempty; [exact I | reflexivity].
Defined.

End CipherDemo.

(** ** Passwords, addresses, digests and the display of a phrase *)

Section ValidationFacts.
Import SecurityConfig.

(** [validatePassword] accepts exactly the strings of 8 to 128 code units
    with a lower-case letter, an upper-case letter and a digit: no symbol
    is asked for, and 128 code units are accepted.  A rejection carries a
    reason, an acceptance none. *)
Theorem validatePassword_accepts (password : jsval) :
  (password_valid (validatePassword password) = true <->
   exists s,
     password = JStr s
     /\ 8 <= Z.of_nat (length s) <= 128
     /\ existsb is_lower s = true
     /\ existsb is_upper s = true
     /\ existsb is_digit s = true)
  /\ (password_valid (validatePassword password) = false ->
      exists reason, password_error (validatePassword password) = Some reason)
  /\ (password_valid (validatePassword password) = true ->
      password_error (validatePassword password) = None).
Proof.
  destruct password as [| | | |s| | | |];
    try (split; [split; [done | by intros (s & ? & _)] | split; [by eexists | done]]).
  unfold validatePassword, minPasswordLength, maxPasswordLength, require_lowercase,
    require_uppercase, require_numbers, require_symbols.
  destruct (Z.ltb_spec (Z.of_nat (length s)) 8).
  { split; [split; [done | intros (s' & [= <-] & ? & _); lia] | split; [by eexists | done]]. }
  destruct (Z.ltb_spec 128 (Z.of_nat (length s))).
  { split; [split; [done | intros (s' & [= <-] & ? & _); lia] | split; [by eexists | done]]. }
  destruct (existsb is_lower s) eqn:El, (existsb is_upper s) eqn:Eu,
    (existsb is_digit s) eqn:Ed;
    cbn [andb negb app length Nat.ltb Nat.leb password_valid password_error];
    (split; [split|split]);
    first [ done
          | by eexists
          | intros _; exists s; repeat split; first [done | lia]
          | intros (s' & [= <-] & _ & Hl & Hu & Hd); congruence ].
Qed.

Lemma validatePassword_accepts_witness :
  password_valid (validatePassword (JStr (str "Passw0rdPassw0rd"))) = true.
Proof.
  apply (validatePassword_accepts (JStr (str "Passw0rdPassw0rd"))).
  exists (str "Passw0rdPassw0rd"). vm_compute. repeat split; discriminate.
Defined.

Lemma run_of_length (class : Z -> bool) (lo hi : nat) (s : jsstring) :
  run_of class lo hi s = true -> (lo <= length s <= hi)%nat.
Proof.
  unfold run_of. intros Hrun.
  apply andb_true_iff in Hrun as [Hrun Hhi]. apply andb_true_iff in Hrun as [_ Hlo].
  apply Nat.leb_le in Hhi, Hlo. lia.
Qed.

(** Whatever the chain, an address [validateAddress] accepts is a string
    of 26 to 64 code units once trimmed; for Ethereum it has 40 or 42, and
    BSC and Polygon addresses are judged as Ethereum addresses are. *)
Theorem validateAddress_lengths (address chain : jsval) :
  (validateAddress address chain = true ->
   exists s, address = JStr s /\ (26 <= length (trim s) <= 64)%nat)
  /\ (validateAddress address (JStr (str "ethereum")) = true ->
      exists s, address = JStr s /\ (length (trim s) = 40 \/ length (trim s) = 42)%nat)
  /\ validateAddress address (JStr (str "bsc"))
     = validateAddress address (JStr (str "ethereum"))
  /\ validateAddress address (JStr (str "polygon"))
     = validateAddress address (JStr (str "ethereum")).
Proof.
  assert (Heth : forall t, ethereum_pattern t = true ->
                           (length t = 40 \/ length t = 42)%nat).
  { intros t Ht. unfold ethereum_pattern in Ht. apply orb_true_iff in Ht as [Ht|Ht].
    - apply run_of_length in Ht. lia.
    - destruct t as [|a [|b rest]]; try done.
      apply andb_true_iff in Ht as [_ Ht]. apply run_of_length in Ht. cbn [length]. lia. }
  assert (Hbtc : forall t, bitcoin_pattern t = true -> (26 <= length t <= 64)%nat).
  { intros t Ht. unfold bitcoin_pattern in Ht. apply orb_true_iff in Ht as [Ht|Ht].
    - destruct t as [|a [|b [|c rest]]]; try done.
      apply andb_true_iff in Ht as [_ Ht]. apply run_of_length in Ht. cbn [length]. lia.
    - destruct t as [|c rest]; [done|]. apply andb_true_iff in Ht as [_ Ht].
      apply run_of_length in Ht. cbn [length]. lia. }
  assert (Htron : forall t, tron_pattern t = true -> (26 <= length t <= 64)%nat).
  { intros t Ht. unfold tron_pattern in Ht. destruct t as [|a rest]; [done|].
    apply andb_true_iff in Ht as [_ Ht]. apply run_of_length in Ht. cbn [length]. lia. }
  assert (Hbasic : forall t : jsstring,
             (26 <=? length t)%nat && (length t <=? 64)%nat = true ->
             (26 <= length t <= 64)%nat).
  { intros t Ht. apply andb_true_iff in Ht as [H1 H2]. apply Nat.leb_le in H1, H2. lia. }
  assert (Hstring : forall v, string_eqb (typeof v) (str "string") = true ->
                              exists s, v = JStr s).
  { intros v Hv. destruct v; first [vm_compute in Hv; discriminate Hv | by eexists]. }
  split; [|split; [|split]].
  - unfold validateAddress.
    destruct (truthy address) eqn:Htr; [|done].
    destruct (string_eqb (typeof address) (str "string")) eqn:Hty; [|done].
    apply Hstring in Hty as [s ->]. cbn [negb orb]. intros Hv. exists s. split; [done|].
    destruct chain as [| | | |name| | | |]; try (by apply Hbasic).
    destruct (_ || _); [apply Heth in Hv; lia|].
    destruct (string_eqb name (str "bitcoin")); [by apply Hbtc|].
    destruct (string_eqb name (str "tron")); [by apply Htron | by apply Hbasic].
  - unfold validateAddress.
    destruct (truthy address) eqn:Htr; [|done].
    destruct (string_eqb (typeof address) (str "string")) eqn:Hty; [|done].
    apply Hstring in Hty as [s ->]. cbn [negb orb].
    change (string_eqb (str "ethereum") (str "ethereum")) with true.
    cbn [orb]. intros Hv. exists s. split; [done | by apply Heth].
  - unfold validateAddress. destruct (_ || _); [done|].
    change (string_eqb (str "bsc") (str "bsc")) with true.
    change (string_eqb (str "ethereum") (str "ethereum")) with true.
    by rewrite orb_true_r.
  - unfold validateAddress. destruct (_ || _); [done|].
    change (string_eqb (str "polygon") (str "polygon")) with true.
    change (string_eqb (str "ethereum") (str "ethereum")) with true.
    by rewrite orb_true_r.
Qed.

Lemma validateAddress_lengths_witness :
  exists s,
    JStr (str " 0x52908400098527886E0F7030069857D2E4169EE7 ") = JStr s
    /\ (length (trim s) = 40 \/ length (trim s) = 42)%nat.
Proof.
  destruct (validateAddress_lengths
              (JStr (str " 0x52908400098527886E0F7030069857D2E4169EE7 "))
              (JStr (str "ethereum"))) as (_ & Heth & _).
  apply Heth. vm_compute. reflexivity.
Defined.

End ValidationFacts.

(** ** Digests in hexadecimal, the words of a phrase, and the import of a phrase *)

Section HashFacts.
Context {H : Host}.
Import EncryptionManager.



End HashFacts.

Section PhraseFacts.
Import MnemonicManager.

Lemma join_split_char_from (sep : Z) (field s : jsstring) :
  join [sep] (map Some (split_char_from sep field s)) = field ++ s.
Proof.
  revert field. induction s as [|c s IH]; intros field; cbn [split_char_from].
  - cbn [map join default]. by rewrite app_nil_r.
  - destruct (c =? sep) eqn:E.
    + apply Z.eqb_eq in E as ->. specialize (IH []).
      destruct (split_char_from sep [] s) as [|x rest] eqn:Hs;
        [by destruct (split_char_from_nonempty sep [] s)|].
      change (join [sep] (map Some (field :: x :: rest)))
        with (field ++ [sep] ++ join [sep] (map Some (x :: rest))).
      by rewrite IH.
    + rewrite IH, <- app_assoc. done.
Qed.

Lemma imap_pairs {A B} (f : nat -> B) (l : list A) :
  map snd (imap (fun i x => (f i, x)) l) = l
  /\ map fst (imap (fun i x => (f i, x)) l) = map f (seq 0 (length l)).
Proof.
  revert f. induction l as [|x l IH]; intros f; [done|].
  cbn [imap map length seq snd fst].
  destruct (IH (f ∘ S)) as [IH1 IH2]. unfold compose in *. split.
  - f_equal. exact IH1.
  - f_equal. rewrite IH2, <- seq_shift, map_map. done.
Qed.

(** [formatMnemonic] numbers the words of the phrase from 1 and loses
    nothing: joined by single spaces, the words are the phrase. *)
Theorem formatMnemonic_keeps_phrase (mnemonic : jsstring) :
  map snd (formatMnemonic mnemonic) = split_char 32 mnemonic
  /\ map fst (formatMnemonic mnemonic)
     = map (fun i => Z.of_nat i + 1) (seq 0 (length (split_char 32 mnemonic)))
  /\ join (str " ") (map (fun entry => Some (snd entry)) (formatMnemonic mnemonic))
     = mnemonic.
Proof.
  unfold formatMnemonic.
  destruct (imap_pairs (fun i => Z.of_nat i + 1) (split_char 32 mnemonic)) as [Hw Hi].
  split; [exact Hw|]. split; [exact Hi|].
  rewrite <- (map_map snd Some), Hw.
  exact (join_split_char_from 32 [] mnemonic).
Qed.

End PhraseFacts.

Section ImportPhrase.
Context {H : Host}.
Import Wallet WalletSetup.

Lemma clearSensitiveData_spec (w : World) :
  exists w',
    clearSensitiveData w = (Return tt, w')
    /\ db w' = db w
    /\ isLocked (session w') = isLocked (session w)
    /\ truthy (mnemonic (session w')) = false
    /\ privateKeys (session w') = []
    /\ truthy (get_prop (wallet (session w')) (str "mnemonic")) = false.
Proof.
  unfold clearSensitiveData, update, bind, get_world, modify, ret.
  destruct w as [rb ru rs su nw hp d [wal mn pk ch pr il tm ev]]. simpl.
  destruct (truthy mn) eqn:Hmn; simpl;
    destruct (truthy wal && truthy (get_prop wal (str "mnemonic"))) eqn:Hw; simpl;
    eexists; (split; [reflexivity|]); simpl; repeat (split; [first [done | assumption]|]);
    try (destruct wal; try done; cbn [set_prop get_prop]; by rewrite assoc_set_field);
    try (apply andb_false_iff in Hw as [Hw|Hw]; [by destruct wal | exact Hw]).
Qed.

(** [importWallet] of the wallet manager never imports anything: since
    [validateMnemonic] accepts no phrase, every call throws the reason of
    the rejection, whatever the phrase and the password; the store is not
    touched, and the session is left without phrase and keys. *)
Theorem importWallet_always_throws (Mnemonic : MnemonicManager.t)
    (getAddressFromSeed : jsstring -> list byte -> M jsval)
    (phrase : jsval) (password : jsstring) (w : World) :
  exists reason w',
    importWallet Mnemonic getAddressFromSeed phrase password w
    = (Throw (Error reason), w')
    /\ MnemonicManager.validateMnemonic Mnemonic phrase
       = Return (MnemonicManager.mkValidation false (Some reason))
    /\ reason <> []
    /\ db w' = db w
    /\ isLocked (session w') = isLocked (session w)
    /\ truthy (mnemonic (session w')) = false
    /\ privateKeys (session w') = [].
Proof.
  destruct (validateMnemonic_rejects Mnemonic phrase) as (reason & Hval & Hne).
  destruct (clearSensitiveData_spec w) as (w' & Hclear & Hdb & Hl & Hm & Hk & _).
  exists reason, w'. unfold importWallet, try_catch.
  unfold bind at 1, lift. rewrite Hval. cbn [MnemonicManager.valid negb throw].
  cbn [MnemonicManager.error default].
  rewrite (bind_run _ _ _ _ _ Hclear). done.
Qed.

End ImportPhrase.

(** ** What [encrypt] leaves in memory, and what the mnemonic code never reads *)

Lemma appends_refl w : appends w w.
Proof. exists []. by rewrite app_nil_r. Qed.

Lemma appends_trans w1 w2 w3 : appends w1 w2 -> appends w2 w3 -> appends w1 w3.
Proof. intros [l1 H1] [l2 H2]. exists (l1 ++ l2). by rewrite H2, H1, app_assoc. Qed.

Section MemoryFacts.
Context {H : Host}.
Import SecurityConfig EncryptionManager.

Lemma alloc_appends (bytes : list byte) : preserves appends (alloc bytes).
Proof. intros w. by exists [bytes]. Qed.

Lemma alloc_buffer_appends (bytes : list byte) : preserves appends (alloc_buffer bytes).
Proof. intros w. by exists [bytes]. Qed.

Lemma generateSecureRandom_heap (n : nat) (w w1 : World) (view : Uint8Array) :
  generateSecureRandom (num (Z.of_nat n)) w = (Return view, w1) ->
  heap w1 = heap w ++ [random_run w (random_used w) n]
  /\ random_used w1 = (random_used w + n)%nat
  /\ random_bytes w1 = random_bytes w.
Proof.
  unfold generateSecureRandom. rewrite trunc_num.
  destruct (Z.ltb_spec (Z.of_nat n) 0); [lia|]. rewrite Nat2Z.id.
  unfold bind, get_world, modify, alloc. intros [= _ <-]. by destruct w.
Qed.

(** [encrypt] of a string wipes nothing: when it returns, every buffer
    that was in the heap is as it was, and the salt, the nonce, the UTF-8
    bytes of the password and those of the plaintext are all still there,
    in buffers of their own. *)
Theorem encrypt_wipes_nothing (plaintext password envelope : jsstring) (w w' : World) :
  encrypt (JStr plaintext) password w = (Return envelope, w') ->
  exists rest,
    heap w'
    = heap w ++ [random_run w (random_used w) 16;
                 random_run w (random_used w + 16) 12;
                 TextEncoder_encode password;
                 TextEncoder_encode plaintext] ++ rest.
Proof.
  intros Henc. unfold encrypt, try_catch in Henc.
  match type of Henc with
  | match ?body w with _ => _ end = _ => destruct (body w) as [[b0|e] w0] eqn:Hbody
  end; [|done].
  injection Henc as -> ->.
  change (num saltSize) with (num (Z.of_nat 16)) in Hbody.
  change (num ivSize) with (num (Z.of_nat 12)) in Hbody.
  apply bind_returns in Hbody as (salt & w1 & Hsalt & Hbody).
  apply bind_returns in Hbody as (iv & w2 & Hiv & Hbody).
  apply bind_returns in Hbody as (key & w3 & Hkey & Hbody).
  apply bind_returns in Hbody as (dataBuffer & w4 & Hdata & Hbody).
  destruct (generateSecureRandom_heap _ _ _ _ Hsalt) as (Hh1 & Hu1 & Hr1).
  destruct (generateSecureRandom_heap _ _ _ _ Hiv) as (Hh2 & Hu2 & Hr2).
  destruct (deriveKey_heap _ _ _ _ _ Hkey) as [-> _].
  unfold bind, alloc, ret in Hdata. injection Hdata as <- <-.
  assert (Htail : appends
                    (set_heap (heap (set_heap (heap w2 ++ [TextEncoder_encode password]) w2)
                               ++ [TextEncoder_encode plaintext])
                       (set_heap (heap w2 ++ [TextEncoder_encode password]) w2)) w').
  { match type of Hbody with ?tail ?w0 = _ =>
      assert (Hp : preserves appends tail);
      [|specialize (Hp w0); by rewrite Hbody in Hp] end.
    unfold arrayBufferToBase64, zeroBuffer.
    repeat first
      [ apply alloc_appends | apply alloc_buffer_appends
      | keeps_step appends_refl appends_trans ];
      intros w0; apply appends_refl. }
  destruct Htail as [rest Hrest]. exists rest. rewrite Hrest.
  destruct w2; simpl in *. rewrite Hh2, Hh1.
  unfold random_run. rewrite Hr1, Hu1. by rewrite <- !app_assoc.
Qed.

End MemoryFacts.

Section MemoryDemo.
Import EncryptionManager.

Lemma encrypt_wipes_nothing_witness :
  exists envelope w' rest,
    encrypt (H := Demo.host) (JStr (str "secret")) (str "pw") Demo.world = (Return envelope, w')
    /\ heap w'
       = heap Demo.world
         ++ [random_run Demo.world (random_used Demo.world) 16;
             random_run Demo.world (random_used Demo.world + 16) 12;
             TextEncoder_encode (str "pw"); TextEncoder_encode (str "secret")] ++ rest.
Proof.
  destruct (encrypt (H := Demo.host) (JStr (str "secret")) (str "pw") Demo.world)
    as [[envelope|e] w'] eqn:Henc; [|vm_compute in Henc; discriminate Henc].
  destruct (encrypt_wipes_nothing (H := Demo.host) _ _ _ _ _ Henc) as [rest Hrest].
  by exists envelope, w', rest.
Defined.

End MemoryDemo.

Section DigestFacts.
Import MnemonicManager.


End DigestFacts.

(** ** Transactions saved, and the bytes behind a phrase *)

Section TransactionFacts.
Context {H : Host}.
Import StorageManager.

(** A transaction [saveTransaction] stored is read back under the id it
    returned, which is the transaction's hash when it has one; a status or
    a confirmation flag left out is stored as "pending" and [false]. *)
Theorem saveTransaction_then_get (txData id : jsval) (w w1 : World) :
  saveTransaction txData w = (Return id, w1) ->
  (truthy (get_prop txData (str "hash")) = true -> id = get_prop txData (str "hash"))
  /\ exists tx,
      get Transactions id w1 = (Return tx, w1)
      /\ get_prop tx (str "id") = id
      /\ get_prop tx (str "status")
         = js_or_else (get_prop txData (str "status")) (JStr (str "pending"))
      /\ get_prop tx (str "confirmed")
         = js_or_else (get_prop txData (str "confirmed")) (JBool false)
      /\ get_prop tx (str "amount") = get_prop txData (str "amount").
Proof.
  unfold saveTransaction. rewrite try_catch_rethrow. intros Hsave.
  apply bind_returns in Hsave as (hash & wa & Hhash & Hsave).
  assert (hash = get_prop txData (str "hash") /\ wa = w) as [-> ->].
  { unfold lift, get_member in Hhash. destruct txData; first [done | by injection Hhash as <- <-]. }
  apply bind_returns in Hsave as (id0 & wb & Hid & Hsave).
  apply bind_returns in Hsave as (timestamp & wc & Hts & Hsave).
  apply bind_returns in Hsave as (key & wd & Hput & Hsave).
  unfold ret in Hsave. injection Hsave as Hret ->.
  change (get_prop (JObj ((str "id", id0) :: _)) (str "id")) with id0 in Hret. subst id0.
  destruct (put_get _ _ _ _ _ Hput) as (Hkey & Hget & _).
  change (get_prop (JObj ((str "id", id) :: _)) (keyPath Transactions)) with id in Hkey.
  subst key. split.
  - intros Htr. unfold or_else in Hid. rewrite Htr in Hid. by injection Hid as <- _.
  - eexists. split; [exact Hget|]. repeat split.
Qed.

End TransactionFacts.

Section TransactionDemo.
Import StorageManager.

Lemma saveTransaction_then_get_witness :
  exists w1 tx,
    saveTransaction (JObj [(str "hash", JStr (str "0xfeed")); (str "amount", JNum 5)])
      Demo.world = (Return (JStr (str "0xfeed")), w1)
    /\ get Transactions (JStr (str "0xfeed")) w1 = (Return tx, w1)
    /\ get_prop tx (str "status") = JStr (str "pending").
Proof.
  destruct (saveTransaction (JObj [(str "hash", JStr (str "0xfeed")); (str "amount", JNum 5)])
              Demo.world) as [[id|e] w1] eqn:Hsave; [|vm_compute in Hsave; discriminate Hsave].
  destruct (saveTransaction_then_get _ _ _ _ Hsave) as (Hid & tx & Hget & _ & Hstatus & _).
  rewrite (Hid eq_refl) in *.
  exists w1, tx. split; [reflexivity|]. split; [exact Hget | exact Hstatus].
Defined.

End TransactionDemo.

Section EntropyFacts.
Context {H : Host}.
Import MnemonicManager.

(** [mnemonicToEntropy] of a phrase of 12, 15, 18, 21 or 24 words of the
    list returns 16, 20, 24, 28 or 32 bytes: four bytes for three words. *)
Theorem mnemonicToEntropy_length (this : t) (phrase : jsstring) (entropy : list byte) :
  In (length (split_spaces (trim phrase))) [12; 15; 18; 21; 24]%nat ->
  mnemonicToEntropy this phrase = Return entropy ->
  (3 * length entropy = 4 * length (split_spaces (trim phrase)))%nat.
Proof.
  intros Hcount. unfold mnemonicToEntropy.
  destruct (words_to_bits this (split_spaces (trim phrase))) as [bits|e] eqn:Hbits; [|done].
  apply words_to_bits_length in Hbits. intros [= <-].
  rewrite !length_map. unfold for_range, len_num. rewrite length_map, length_seq, Hbits.
  cbn [In] in Hcount.
  destruct Hcount as [<-|[<-|[<-|[<-|[<-|[]]]]]]; vm_compute; reflexivity.
Qed.

End EntropyFacts.

Section EntropyDemo.
Import MnemonicManager.

Lemma mnemonicToEntropy_length_witness :
  exists entropy,
    mnemonicToEntropy new Demo.phrase = Return entropy /\ length entropy = 16%nat.
Proof.
  destruct (mnemonicToEntropy new Demo.phrase) as [entropy|e] eqn:Hrun;
    [|vm_compute in Hrun; discriminate Hrun].
  exists entropy. split; [reflexivity|].
  assert (Hcount : In (length (split_spaces (trim Demo.phrase))) [12; 15; 18; 21; 24]%nat).
  { vm_compute. left. reflexivity. }
  pose proof (mnemonicToEntropy_length new Demo.phrase entropy Hcount Hrun) as Hlen.
  assert (Hwords : length (split_spaces (trim Demo.phrase)) = 12%nat)
    by (vm_compute; reflexivity).
  rewrite Hwords in Hlen. lia.
Defined.

End EntropyDemo.
